(** * video-store: the upload and delete route handlers

    A shallow embedding of the four API route handlers of the repository
    (POST /api/video-upload, POST /api/image-upload, DELETE /api/video/[id],
    DELETE /api/image/[id]) together with what they call: the Clerk session,
    the multipart form, the Cloudinary uploader and the two Prisma tables
    created by the migrations under prisma/migrations.

    Handlers are functions in a small state, trace and exception monad:
    the state is the database, the trace lists the external calls in the
    order the handler makes them, and an exception is a thrown JavaScript
    error object, caught by the handlers' try/catch blocks. *)

From stdpp Require Import base gmap list strings sorting pretty.
From Stdlib Require Import ZArith Ascii.
From Stdlib Require QArith_base.

Local Open Scope Z_scope.

(** ** JavaScript values *)

(** A JavaScript string is a sequence of UTF-16 code units. *)
Abbreviation jsstring := (list N).

(** A string literal of the source (ASCII only). *)
Definition lit (s : string) : jsstring :=
  Ascii.N_of_ascii <$> String.list_ascii_of_string s.

(** A finite JavaScript number that need not be an integer (the duration
    Cloudinary reports, stored in a DOUBLE PRECISION column): the handlers
    only pass it on and test it for zero. *)
Abbreviation number := QArith_base.Q.

Module Js.

(** ECMAScript WhiteSpace and LineTerminator code points: what
    [String.prototype.trim] removes. *)
Definition isWhiteSpace (c : N) : bool :=
  ((c =? 0x0009) || (c =? 0x000A) || (c =? 0x000B) || (c =? 0x000C)
   || (c =? 0x000D) || (c =? 0x0020) || (c =? 0x00A0) || (c =? 0x1680)
   || ((0x2000 <=? c) && (c <=? 0x200A))
   || (c =? 0x2028) || (c =? 0x2029) || (c =? 0x202F) || (c =? 0x205F)
   || (c =? 0x3000) || (c =? 0xFEFF))%N.

Fixpoint trimStart (s : jsstring) : jsstring :=
  match s with
  | c :: rest => if isWhiteSpace c then trimStart rest else s
  | [] => []
  end.

Definition trimEnd (s : jsstring) : jsstring :=
  reverse (trimStart (reverse s)).

(** [s.trim()] *)
Definition trim (s : jsstring) : jsstring := trimEnd (trimStart s).

(** [s.startsWith(p)] *)
Fixpoint startsWith (p s : jsstring) : bool :=
  match p, s with
  | [], _ => true
  | a :: p', b :: s' => (a =? b)%N && startsWith p' s'
  | _ :: _, [] => false
  end.

(** [xs.includes(x)] on an array of strings. *)
Definition includes (xs : list jsstring) (x : jsstring) : bool :=
  bool_decide (x ∈ xs).

(** Truthiness of the values the handlers test with [!v], [v || d] and
    [if (v)]: [None] stands for null or undefined. *)
Definition truthy_string (v : option jsstring) : bool :=
  match v with
  | Some (_ :: _) => true
  | _ => false
  end.

Definition truthy_int (v : option Z) : bool :=
  match v with
  | Some n => negb (n =? 0)
  | None => false
  end.

Definition truthy_number (v : option number) : bool :=
  match v with
  | Some q => negb (QArith_base.Qnum q =? 0)
  | None => false
  end.

(** [a || b] where [b] is never absent. *)
Definition or_int (a : option Z) (b : Z) : Z :=
  if truthy_int a then default b a else b.

Definition or_number (a : option number) (b : number) : number :=
  if truthy_number a then default b a else b.

(** [s?.trim() || null] *)
Definition trim_or_null (s : option jsstring) : option jsstring :=
  let t := trim <$> s in
  if truthy_string t then t else None.

End Js.

(** ** The request *)

(** A [File] entry of the form data: the handlers read [type] and [size]
    and hand the content to the uploader. *)
Record File := {
  file_name : jsstring;
  file_type : jsstring;
  file_size : Z;
}.

(** What the upload handlers read of a request: the session's [userId]
    ([await auth()]), and the three entries of [request.formData()];
    [None] is the null that [formData.get] returns for a missing entry. *)
Record UploadRequest := {
  auth_userId : option jsstring;
  form_file : option File;
  form_title : option jsstring;
  form_description : option jsstring;
}.

(** What the delete handlers read: the session and the [id] route
    parameter. *)
Record DeleteRequest := {
  del_userId : option jsstring;
  del_id : jsstring;
}.

(** ** Thrown errors *)

(** The fields the catch blocks look at on a thrown error: the uploader's
    errors carry [http_code], Prisma's known request errors a [code]. *)
Record JsError := {
  http_code : option Z;
  code : option jsstring;
  message : jsstring;
}.

(** ** Cloudinary *)

Inductive ResourceType := RtVideo | RtImage.

(** The options object given to [upload_stream]. *)
Record UploadOptions := {
  resource_type : ResourceType;
  public_id : jsstring;
  transformation : list (string * string);
  eager : list (string * list (string * string));
  eager_async : bool;
}.

(** The fields read of the upload result (typed [any] in the source);
    [None] is a field the provider left out. *)
Record UploadResult := {
  res_public_id : jsstring;
  res_secure_url : jsstring;
  res_bytes : option Z;
  res_duration : option number;
}.

(** ** The database *)

(** Rows of the tables "videos" and "images", columns as in the
    migrations. *)
Record VideoRow := {
  v_id : jsstring;
  v_title : jsstring;
  v_description : option jsstring;
  v_publicId : jsstring;
  v_userId : jsstring;
  v_originalSize : Z;
  v_compressedSize : Z;
  v_duration : number;
  v_createdAt : Z;
  v_updatedAt : Z;
}.

Record ImageRow := {
  i_id : jsstring;
  i_title : jsstring;
  i_description : option jsstring;
  i_publicId : jsstring;
  i_userId : jsstring;
  i_originalSize : Z;
  i_createdAt : Z;
  i_updatedAt : Z;
}.

(** The [data] objects of [prisma.video.create] and [prisma.image.create].
    [userId] is a property the object literal may lack. *)
Record VideoCreateData := {
  vd_title : jsstring;
  vd_description : option jsstring;
  vd_publicId : jsstring;
  vd_userId : option jsstring;
  vd_originalSize : Z;
  vd_compressedSize : Z;
  vd_duration : number;
}.

Record ImageCreateData := {
  id_title : jsstring;
  id_description : option jsstring;
  id_publicId : jsstring;
  id_userId : option jsstring;
  id_originalSize : Z;
}.

Record Db := {
  videos : gmap jsstring VideoRow;
  images : gmap jsstring ImageRow;
}.

(** ** The world outside the handler *)

(** What a handler cannot compute by itself, fixed for one request: the
    clock and the random source behind the generated public id, the answer
    of Cloudinary to each call, and the id and timestamp Prisma gives a new
    row. *)
Record Env := {
  Date_now : Z;
  random36 : jsstring;
  cloud_upload : UploadOptions → File → JsError + UploadResult;
  cloud_destroy : jsstring → ResourceType → option JsError;
  new_row_id : jsstring;
  db_timestamp : Z;
}.

(** The external calls of a handler, in the order it makes them. *)
Inductive Event :=
| EUpload (o : UploadOptions) (f : File) (r : JsError + UploadResult)
| EDestroy (p : jsstring) (rt : ResourceType) (r : option JsError)
| EVideoCreate (d : VideoCreateData)
| EImageCreate (d : ImageCreateData)
| EVideoFindUnique (id : jsstring)
| EImageFindUnique (id : jsstring)
| EVideoDelete (id : jsstring)
| EImageDelete (id : jsstring)
| EConsoleError (what : string).

(** ** The handler monad *)

Record Run (A : Type) := MkRun {
  result : JsError + A;
  db_after : Db;
  calls : list Event;
}.
Arguments MkRun {A} _ _ _.
Arguments result {A} _.
Arguments db_after {A} _.
Arguments calls {A} _.

Definition Handler (A : Type) : Type := Db → Run A.

Definition ret {A} (a : A) : Handler A := λ db, MkRun (inr a) db [].

Definition throw {A} (e : JsError) : Handler A := λ db, MkRun (inl e) db [].

Definition bind {A B} (m : Handler A) (k : A → Handler B) : Handler B :=
  λ db,
    let r := m db in
    match result r with
    | inl e => MkRun (inl e) (db_after r) (calls r)
    | inr a =>
        let r' := k a (db_after r) in
        MkRun (result r') (db_after r') (calls r ++ calls r')
    end.

(** [try { m } catch (e) { h e }] *)
Definition try_catch {A} (m : Handler A) (h : JsError → Handler A) : Handler A :=
  λ db,
    let r := m db in
    match result r with
    | inr _ => r
    | inl e =>
        let r' := h e (db_after r) in
        MkRun (result r') (db_after r') (calls r ++ calls r')
    end.

Definition emit (ev : Event) : Handler () := λ db, MkRun (inr ()) db [ev].

Declare Scope handler_scope.
Delimit Scope handler_scope with handler.
Notation "x <- m ;; k" := (bind m (λ x, k))
  (at level 100, m at next level, right associativity) : handler_scope.
Notation "m ;; k" := (bind m (λ _, k))
  (at level 100, right associativity) : handler_scope.

Local Open Scope handler_scope.

(** [console.error(...)] *)
Definition console_error (what : string) : Handler () := emit (EConsoleError what).

(** ** Prisma *)

Module Prisma.

(** The error of a [data] object that lacks a required argument
    (a PrismaClientValidationError: it carries no [code]). *)
Definition validation_error (field : string) : JsError :=
  {| http_code := None; code := None;
     message := lit "Argument `" ++ lit field ++ lit "` is missing." |}.

(** A PrismaClientKnownRequestError. *)
Definition known_error (c : string) (msg : string) : JsError :=
  {| http_code := None; code := Some (lit c); message := lit msg |}.

Definition unique_violation : JsError :=
  known_error "P2002" "Unique constraint failed".

Definition record_not_found : JsError :=
  known_error "P2025" "Record to delete does not exist.".

(** CREATE UNIQUE INDEX "videos_publicId_key" / "images_publicId_key". *)
Definition video_publicId_taken (db : Db) (p : jsstring) : bool :=
  bool_decide (map_Exists (λ _ row, v_publicId row = p) (videos db)).

Definition image_publicId_taken (db : Db) (p : jsstring) : bool :=
  bool_decide (map_Exists (λ _ row, i_publicId row = p) (images db)).

(** The row a create call stores: the data, a fresh id and both
    timestamps. *)
Definition video_row (E : Env) (data : VideoCreateData) (owner : jsstring) : VideoRow :=
  {| v_id := new_row_id E;
     v_title := vd_title data;
     v_description := vd_description data;
     v_publicId := vd_publicId data;
     v_userId := owner;
     v_originalSize := vd_originalSize data;
     v_compressedSize := vd_compressedSize data;
     v_duration := vd_duration data;
     v_createdAt := db_timestamp E;
     v_updatedAt := db_timestamp E |}.

Definition image_row (E : Env) (data : ImageCreateData) (owner : jsstring) : ImageRow :=
  {| i_id := new_row_id E;
     i_title := id_title data;
     i_description := id_description data;
     i_publicId := id_publicId data;
     i_userId := owner;
     i_originalSize := id_originalSize data;
     i_createdAt := db_timestamp E;
     i_updatedAt := db_timestamp E |}.

(** [prisma.video.create({ data })]: "userId" is TEXT NOT NULL without a
    default, "id" is the primary key, "publicId" is unique; the row gets
    a fresh id and both timestamps. *)
Definition video_create (E : Env) (data : VideoCreateData) : Handler VideoRow :=
  emit (EVideoCreate data) ;;
  λ db,
    match vd_userId data with
    | None => throw (validation_error "userId") db
    | Some owner =>
        if bool_decide (is_Some (videos db !! new_row_id E))
           || video_publicId_taken db (vd_publicId data)
        then throw unique_violation db
        else
          let row := video_row E data owner in
          MkRun (inr row)
                {| videos := <[new_row_id E := row]> (videos db);
                   images := images db |} []
    end.

Definition image_create (E : Env) (data : ImageCreateData) : Handler ImageRow :=
  emit (EImageCreate data) ;;
  λ db,
    match id_userId data with
    | None => throw (validation_error "userId") db
    | Some owner =>
        if bool_decide (is_Some (images db !! new_row_id E))
           || image_publicId_taken db (id_publicId data)
        then throw unique_violation db
        else
          let row := image_row E data owner in
          MkRun (inr row)
                {| videos := videos db;
                   images := <[new_row_id E := row]> (images db) |} []
    end.

(** [prisma.video.findUnique({ where: { id } })] *)
Definition video_findUnique (id : jsstring) : Handler (option VideoRow) :=
  emit (EVideoFindUnique id) ;;
  λ db, ret (videos db !! id) db.

Definition image_findUnique (id : jsstring) : Handler (option ImageRow) :=
  emit (EImageFindUnique id) ;;
  λ db, ret (images db !! id) db.

(** [prisma.video.delete({ where: { id } })] *)
Definition video_delete (id : jsstring) : Handler VideoRow :=
  emit (EVideoDelete id) ;;
  λ db,
    match videos db !! id with
    | None => throw record_not_found db
    | Some row =>
        MkRun (inr row)
              {| videos := delete id (videos db); images := images db |} []
    end.

Definition image_delete (id : jsstring) : Handler ImageRow :=
  emit (EImageDelete id) ;;
  λ db,
    match images db !! id with
    | None => throw record_not_found db
    | Some row =>
        MkRun (inr row)
              {| videos := videos db; images := delete id (images db) |} []
    end.

End Prisma.

(** ** Cloudinary *)

Module Cloudinary.

(** The promise around [cloudinary.uploader.upload_stream(options,
    callback).end(buffer)]: rejected with the callback's error, resolved
    with its result. *)
Definition upload_stream (E : Env) (o : UploadOptions) (f : File)
  : Handler UploadResult :=
  let r := cloud_upload E o f in
  emit (EUpload o f r) ;;
  match r with
  | inl e => throw e
  | inr res => ret res
  end.

(** [await cloudinary.uploader.destroy(publicId, { resource_type })] *)
Definition destroy (E : Env) (p : jsstring) (rt : ResourceType) : Handler () :=
  let r := cloud_destroy E p rt in
  emit (EDestroy p rt r) ;;
  match r with
  | Some e => throw e
  | None => ret ()
  end.

End Cloudinary.

(** ** Responses *)

(** The texts of the [error] property of a JSON error body; the upload
    routes word them for "video" or "image", and two of them quote a value
    of the request. *)
Inductive ErrorText :=
| Unauthorized                              (* "Unauthorized. Please sign in ..." *)
| NoFileProvided                            (* "No file provided. ..." *)
| TitleRequired                             (* "Title is required. ..." *)
| InvalidFileFormat (received : jsstring)   (* "Invalid file format. ... Received: ${file.type}" *)
| FileSizeExceedsLimit (size : Z)           (* "File size exceeds limit. ... Received: ...MB" *)
| CloudinaryUploadFailed (msg : jsstring)   (* "Cloudinary upload failed: ${error.message}" *)
| DatabaseError                             (* "Database error. Failed to save ... metadata." *)
| InternalServerError                       (* "Internal server error. Failed to upload ..." *)
| NotFound                                  (* "Video not found." / "Image not found." *)
| Forbidden                                 (* "Forbidden. You don't own this ..." *)
| FailedToDelete.                           (* "Failed to delete ... Please try again." *)

Record VideoJson := {
  vj_id : jsstring;
  vj_publicId : jsstring;
  vj_title : jsstring;
  vj_description : option jsstring;
  vj_secureUrl : jsstring;
  vj_originalSize : Z;
  vj_compressedSize : Z;
  vj_duration : number;
  vj_createdAt : Z;
}.

Record ImageJson := {
  ij_id : jsstring;
  ij_publicId : jsstring;
  ij_title : jsstring;
  ij_description : option jsstring;
  ij_secureUrl : jsstring;
  ij_originalSize : Z;
  ij_createdAt : Z;
}.

Inductive Body :=
| Error (e : ErrorText)          (* { error: ... } *)
| DeletedSuccessfully            (* { message: "... deleted successfully." } *)
| VideoUploaded (v : VideoJson)
| ImageUploaded (i : ImageJson).

(** [NextResponse.json(body, { status })] *)
Record Response := json {
  body : Body;
  status : Z;
}.

(** ** POST /api/video-upload *)

Module VideoUpload.

Definition MAX_FILE_SIZE : Z := 20 * 1024 * 1024.

Definition ALLOWED_FORMATS : list jsstring := [
  lit "video/mp4";
  lit "video/mpeg";
  lit "video/quicktime";
  lit "video/x-msvideo";
  lit "video/webm";
  lit "video/x-matroska"
].

(** The catch block of the handler. *)
Definition on_error (error : JsError) : Handler Response :=
  console_error "Unexpected error during upload:" ;;
  if Js.truthy_int (http_code error) then
    console_error "Cloudinary error:" ;;
    ret (json (Error (CloudinaryUploadFailed (message error)))
              (default 0 (http_code error)))
  else if Js.truthy_string (code error)
          && Js.startsWith (lit "P") (default [] (code error)) then
    console_error "Database error:" ;;
    ret (json (Error DatabaseError) 500)
  else
    console_error "Generic server error:" ;;
    ret (json (Error InternalServerError) 500).

(** 8. Generate unique publicId: [`videos/${userId}/${timestamp}-${randomString}`] *)
Definition generate_publicId (E : Env) (userId : jsstring) : jsstring :=
  let timestamp := Date_now E in
  let randomString := random36 E in
  lit "videos/" ++ userId ++ lit "/" ++ lit (pretty timestamp)
    ++ lit "-" ++ randomString.

(** The options object of the [upload_stream] call. *)
Definition upload_options (publicId : jsstring) : UploadOptions :=
  {| resource_type := RtVideo;
     public_id := publicId;
     transformation := [("quality", "auto")];
     eager := [("mp4", [("quality", "auto")])];
     eager_async := true |}.

(** The [data] object of the [prisma.video.create] call. *)
Definition create_data (userId : jsstring) (file : File) (title : jsstring)
    (description : option jsstring) (uploadResult : UploadResult)
  : VideoCreateData :=
  (* 10. Extract metadata from Cloudinary response *)
  let public_id := res_public_id uploadResult in
  let uploadedBytes := res_bytes uploadResult in
  let duration := res_duration uploadResult in
  {| vd_title := Js.trim title;
     vd_description := Js.trim_or_null description;
     vd_publicId := public_id;
     vd_userId := Some userId;
     vd_originalSize := file_size file;
     vd_compressedSize := Js.or_int uploadedBytes (file_size file);
     vd_duration := Js.or_number duration (QArith_base.Qmake 0 1) |}.

(** The body of the success response. *)
Definition success_body (video : VideoRow) (secure_url : jsstring) : Body :=
  VideoUploaded
    {| vj_id := v_id video;
       vj_publicId := v_publicId video;
       vj_title := v_title video;
       vj_description := v_description video;
       vj_secureUrl := secure_url;
       vj_originalSize := v_originalSize video;
       vj_compressedSize := v_compressedSize video;
       vj_duration := v_duration video;
       vj_createdAt := v_createdAt video |}.

Definition POST (E : Env) (request : UploadRequest) : Handler Response :=
  try_catch
    ((* 1. Authentication check: if (!userId) *)
     match auth_userId request with
     | None | Some [] => ret (json (Error Unauthorized) 401)
     | Some userId =>
     (* 3. Validate file exists: if (!file) *)
     match form_file request with
     | None => ret (json (Error NoFileProvided) 400)
     | Some file =>
     (* 4. Validate title: if (!title || title.trim().length === 0) *)
     match form_title request with
     | None | Some [] => ret (json (Error TitleRequired) 400)
     | Some title =>
     if (length (Js.trim title) =? 0)%nat then
       ret (json (Error TitleRequired) 400)
     (* 5. Validate file type *)
     else if negb (Js.includes ALLOWED_FORMATS (file_type file)) then
       ret (json (Error (InvalidFileFormat (file_type file))) 400)
     (* 6. Validate file size *)
     else if file_size file >? MAX_FILE_SIZE then
       ret (json (Error (FileSizeExceedsLimit (file_size file))) 400)
     else
       let description := form_description request in
       let publicId := generate_publicId E userId in
       (* 9. Upload to Cloudinary *)
       uploadResult <-
         Cloudinary.upload_stream E (upload_options publicId) file ;;
       (* 11. Save to database *)
       video <-
         Prisma.video_create E
           (create_data userId file title description uploadResult) ;;
       (* 12. Return success response *)
       ret (json (success_body video (res_secure_url uploadResult)) 201)
     end end end)
    on_error.

End VideoUpload.

(** ** POST /api/image-upload *)

Module ImageUpload.

Definition MAX_FILE_SIZE : Z := 10 * 1024 * 1024.

Definition ALLOWED_FORMATS : list jsstring :=
  [lit "image/jpeg"; lit "image/png"; lit "image/webp"].

Definition on_error (error : JsError) : Handler Response :=
  console_error "Unexpected error during upload:" ;;
  if Js.truthy_int (http_code error) then
    console_error "Cloudinary error:" ;;
    ret (json (Error (CloudinaryUploadFailed (message error)))
              (default 0 (http_code error)))
  else if Js.truthy_string (code error)
          && Js.startsWith (lit "P") (default [] (code error)) then
    console_error "Database error:" ;;
    ret (json (Error DatabaseError) 500)
  else
    console_error "Generic server error:" ;;
    ret (json (Error InternalServerError) 500).

(** 8. Generate unique publicId: [`images/${userId}/${timestamp}-${randomString}`] *)
Definition generate_publicId (E : Env) (userId : jsstring) : jsstring :=
  let timestamp := Date_now E in
  let randomString := random36 E in
  lit "images/" ++ userId ++ lit "/" ++ lit (pretty timestamp)
    ++ lit "-" ++ randomString.

(** The options object of the [upload_stream] call. *)
Definition upload_options (publicId : jsstring) : UploadOptions :=
  {| resource_type := RtImage;
     public_id := publicId;
     transformation := [("quality", "auto"); ("fetch_format", "auto")];
     eager := [];
     eager_async := false |}.

(** The [data] object of the [prisma.image.create] call: title,
    description, publicId and originalSize; it has no [userId] property. *)
Definition create_data (file : File) (title : jsstring)
    (description : option jsstring) (uploadResult : UploadResult)
  : ImageCreateData :=
  (* 10. Extract relevant data from upload result *)
  let public_id := res_public_id uploadResult in
  {| id_title := Js.trim title;
     id_description := Js.trim_or_null description;
     id_publicId := public_id;
     id_userId := None;
     id_originalSize := file_size file |}.

(** The body of the success response. *)
Definition success_body (image : ImageRow) (secure_url : jsstring) : Body :=
  ImageUploaded
    {| ij_id := i_id image;
       ij_publicId := i_publicId image;
       ij_title := i_title image;
       ij_description := i_description image;
       ij_secureUrl := secure_url;
       ij_originalSize := i_originalSize image;
       ij_createdAt := i_createdAt image |}.

Definition POST (E : Env) (request : UploadRequest) : Handler Response :=
  try_catch
    ((* 1. Authentication check: if (!userId) *)
     match auth_userId request with
     | None | Some [] => ret (json (Error Unauthorized) 401)
     | Some userId =>
     (* 3. Validate file exists: if (!file) *)
     match form_file request with
     | None => ret (json (Error NoFileProvided) 400)
     | Some file =>
     (* 4. Validate title: if (!title || title.trim().length === 0) *)
     match form_title request with
     | None | Some [] => ret (json (Error TitleRequired) 400)
     | Some title =>
     if (length (Js.trim title) =? 0)%nat then
       ret (json (Error TitleRequired) 400)
     (* 5. Validate file type *)
     else if negb (Js.includes ALLOWED_FORMATS (file_type file)) then
       ret (json (Error (InvalidFileFormat (file_type file))) 400)
     (* 6. Validate file size *)
     else if file_size file >? MAX_FILE_SIZE then
       ret (json (Error (FileSizeExceedsLimit (file_size file))) 400)
     else
       let description := form_description request in
       let publicId := generate_publicId E userId in
       (* 9. Upload to Cloudinary *)
       uploadResult <-
         Cloudinary.upload_stream E (upload_options publicId) file ;;
       (* 11. Save to database *)
       image <-
         Prisma.image_create E
           (create_data file title description uploadResult) ;;
       (* 12. Return success response *)
       ret (json (success_body image (res_secure_url uploadResult)) 201)
     end end end)
    on_error.

End ImageUpload.

(** ** DELETE /api/video/[id] *)

Module VideoId.

Definition DELETE (E : Env) (request : DeleteRequest) : Handler Response :=
  try_catch
    ((* 1. Authenticate user: if (!userId) *)
     match del_userId request with
     | None | Some [] => ret (json (Error Unauthorized) 401)
     | Some userId =>
     (* 2. Get video ID from URL params *)
     let id := del_id request in
     (* 3. Find the video in database *)
     video <- Prisma.video_findUnique id ;;
     (* 4. Check if video exists *)
     match video with
     | None => ret (json (Error NotFound) 404)
     | Some video =>
     (* 5. Check if user owns this video *)
     if negb (bool_decide (v_userId video = userId)) then
       ret (json (Error Forbidden) 403)
     else
       (* 6. Delete from Cloudinary first; a failure is logged and dropped *)
       try_catch
         (Cloudinary.destroy E (v_publicId video) RtVideo)
         (λ cloudinaryError, console_error "Cloudinary deletion failed:") ;;
       (* 7. Delete from database *)
       Prisma.video_delete id ;;
       (* 8. Return success *)
       ret (json DeletedSuccessfully 200)
     end end)
    (λ error,
       console_error "Error deleting video:" ;;
       ret (json (Error FailedToDelete) 500)).

End VideoId.

(** ** DELETE /api/image/[id] *)

Module ImageId.

Definition DELETE (E : Env) (request : DeleteRequest) : Handler Response :=
  try_catch
    ((* 1. Authenticate user: if (!userId) *)
     match del_userId request with
     | None | Some [] => ret (json (Error Unauthorized) 401)
     | Some userId =>
     (* 2. Get image ID from URL params *)
     let id := del_id request in
     (* 3. Find the image in database *)
     image <- Prisma.image_findUnique id ;;
     (* 4. Check if image exists *)
     match image with
     | None => ret (json (Error NotFound) 404)
     | Some image =>
     (* 5. Check if user owns this image *)
     if negb (bool_decide (i_userId image = userId)) then
       ret (json (Error Forbidden) 403)
     else
       (* 6. Delete from Cloudinary first; a failure is logged and dropped *)
       try_catch
         (Cloudinary.destroy E (i_publicId image) RtImage)
         (λ cloudinaryError, console_error "Cloudinary deletion failed:") ;;
       (* 7. Delete from database *)
       Prisma.image_delete id ;;
       (* 8. Return success *)
       ret (json DeletedSuccessfully 200)
     end end)
    (λ error,
       console_error "Error deleting image:" ;;
       ret (json (Error FailedToDelete) 500)).

End ImageId.

(** The two upload routes and the two delete routes, by media kind. *)
Definition upload_POST (kind : ResourceType) : Env → UploadRequest → Handler Response :=
  match kind with
  | RtVideo => VideoUpload.POST
  | RtImage => ImageUpload.POST
  end.

Definition media_DELETE (kind : ResourceType) : Env → DeleteRequest → Handler Response :=
  match kind with
  | RtVideo => VideoId.DELETE
  | RtImage => ImageId.DELETE
  end.

Definition MAX_FILE_SIZE (kind : ResourceType) : Z :=
  match kind with
  | RtVideo => VideoUpload.MAX_FILE_SIZE
  | RtImage => ImageUpload.MAX_FILE_SIZE
  end.

Definition ALLOWED_FORMATS (kind : ResourceType) : list jsstring :=
  match kind with
  | RtVideo => VideoUpload.ALLOWED_FORMATS
  | RtImage => ImageUpload.ALLOWED_FORMATS
  end.

(** ** Reading a table by media kind *)

Definition owner_of (kind : ResourceType) (db : Db) (id : jsstring) : option jsstring :=
  match kind with
  | RtVideo => v_userId <$> videos db !! id
  | RtImage => i_userId <$> images db !! id
  end.

Definition publicId_of (kind : ResourceType) (db : Db) (id : jsstring) : option jsstring :=
  match kind with
  | RtVideo => v_publicId <$> videos db !! id
  | RtImage => i_publicId <$> images db !! id
  end.

Definition without_row (kind : ResourceType) (id : jsstring) (db : Db) : Db :=
  match kind with
  | RtVideo => {| videos := delete id (videos db); images := images db |}
  | RtImage => {| videos := videos db; images := delete id (images db) |}
  end.

Definition row_count (kind : ResourceType) (db : Db) : nat :=
  match kind with
  | RtVideo => size (videos db)
  | RtImage => size (images db)
  end.

Definition find_event (kind : ResourceType) (id : jsstring) : Event :=
  match kind with
  | RtVideo => EVideoFindUnique id
  | RtImage => EImageFindUnique id
  end.

Definition delete_event (kind : ResourceType) (id : jsstring) : Event :=
  match kind with
  | RtVideo => EVideoDelete id
  | RtImage => EImageDelete id
  end.

(** ** Classifying events and responses *)

Definition is_store_write (ev : Event) : bool :=
  match ev with
  | EVideoCreate _ | EImageCreate _ | EVideoDelete _ | EImageDelete _ => true
  | _ => false
  end.

Definition is_upload_success (ev : Event) : bool :=
  match ev with
  | EUpload _ _ (inr _) => true
  | _ => false
  end.

Definition is_upload_failure (ev : Event) : bool :=
  match ev with
  | EUpload _ _ (inl _) => true
  | _ => false
  end.

Definition is_destroy (ev : Event) : bool :=
  match ev with
  | EDestroy _ _ _ => true
  | _ => false
  end.

Definition is_console (ev : Event) : bool :=
  match ev with
  | EConsoleError _ => true
  | _ => false
  end.

(** A response whose body is [{ error: ... }]. *)
Definition is_failure (r : Response) : bool :=
  match body r with
  | Error _ => true
  | _ => false
  end.

(** A response of a catch block of the upload handlers. *)
Definition is_server_failure (r : Response) : bool :=
  match body r with
  | Error (CloudinaryUploadFailed _) | Error DatabaseError
  | Error InternalServerError => true
  | _ => false
  end.

Definition is_invalid_format (r : Response) : bool :=
  match body r with
  | Error (InvalidFileFormat _) => true
  | _ => false
  end.

Definition is_too_large (r : Response) : bool :=
  match body r with
  | Error (FileSizeExceedsLimit _) => true
  | _ => false
  end.

(** ** The conditions of the upload checks *)

(** [!userId] *)
Definition unauthenticated (userId : option jsstring) : bool :=
  negb (Js.truthy_string userId).

(** [!title || title.trim().length === 0] *)
Definition title_missing (title : option jsstring) : bool :=
  negb (Js.truthy_string title)
  || (length (Js.trim (default [] title)) =? 0)%nat.

(** [!ALLOWED_FORMATS.includes(file.type)] *)
Definition format_rejected (kind : ResourceType) (file : File) : bool :=
  negb (Js.includes (ALLOWED_FORMATS kind) (file_type file)).

(** [file.size > MAX_FILE_SIZE] *)
Definition size_rejected (kind : ResourceType) (file : File) : bool :=
  file_size file >? MAX_FILE_SIZE kind.

(** The steps of the upload contract that can reject a request before
    anything is sent out, in the order the contract numbers them. *)
Inductive UploadCheck :=
| CheckCaller | CheckFile | CheckTitle | CheckFormat | CheckSize.

Definition check_order : list UploadCheck :=
  [CheckCaller; CheckFile; CheckTitle; CheckFormat; CheckSize].

Definition check_fails (kind : ResourceType) (req : UploadRequest) (c : UploadCheck) : bool :=
  match c with
  | CheckCaller => unauthenticated (auth_userId req)
  | CheckFile => match form_file req with None => true | Some _ => false end
  | CheckTitle => title_missing (form_title req)
  | CheckFormat =>
      match form_file req with
      | None => true
      | Some f => format_rejected kind f
      end
  | CheckSize =>
      match form_file req with
      | None => false
      | Some f => size_rejected kind f
      end
  end.

(** The response that reports a failed check. *)
Definition check_error (req : UploadRequest) (c : UploadCheck) : Response :=
  match c with
  | CheckCaller => json (Error Unauthorized) 401
  | CheckFile => json (Error NoFileProvided) 400
  | CheckTitle => json (Error TitleRequired) 400
  | CheckFormat =>
      json (Error (InvalidFileFormat (default [] (file_type <$> form_file req)))) 400
  | CheckSize =>
      json (Error (FileSizeExceedsLimit (default 0 (file_size <$> form_file req)))) 400
  end.

Definition first_failing_check (kind : ResourceType) (req : UploadRequest) : option UploadCheck :=
  List.find (check_fails kind req) check_order.

(** A string that is empty or consists of white space only. *)
Definition blank (s : jsstring) : Prop :=
  Forall (λ c, Js.isWhiteSpace c = true) s.

(** ** Listing *)

(** A record of either kind, as the listing returns them. *)
Inductive MediaRecord :=
| VideoRecord (row : VideoRow)
| ImageRecord (row : ImageRow).

Definition ownerId (r : MediaRecord) : jsstring :=
  match r with
  | VideoRecord row => v_userId row
  | ImageRecord row => i_userId row
  end.

Definition createdAt (r : MediaRecord) : Z :=
  match r with
  | VideoRecord row => v_createdAt row
  | ImageRecord row => i_createdAt row
  end.

Definition records (kind : ResourceType) (db : Db) : list MediaRecord :=
  match kind with
  | RtVideo => VideoRecord <$> (map_to_list (videos db)).*2
  | RtImage => ImageRecord <$> (map_to_list (images db)).*2
  end.

(** [orderBy: { createdAt: "desc" }] *)
Definition newer_first (a b : MediaRecord) : Prop := createdAt b ≤ createdAt a.

#[global] Instance newer_first_dec a b : Decision (newer_first a b).
Proof. unfold newer_first. apply _. Defined.

(** Modelled from the spec: the listing routes (GET /api/video and
    GET /api/image, which the dashboard fetches) are not among the source
    files. The spec's [listByOwner(ownerId, kind)] returns the records of
    the kind whose owner is [ownerId], ordered by [createdAt] descending;
    the project notes give the query as
    [findMany({ where: { userId } })] ordered by createdAt desc. *)
Definition listByOwner (owner : jsstring) (kind : ResourceType) (db : Db)
  : list MediaRecord :=
  merge_sort newer_first
    (filter (λ r, ownerId r = owner) (records kind db)).

(** A record is in the store when its row is in the table of its kind. *)
Definition stored (kind : ResourceType) (db : Db) (r : MediaRecord) : Prop :=
  match kind, r with
  | RtVideo, VideoRecord row => ∃ id, videos db !! id = Some row
  | RtImage, ImageRecord row => ∃ id, images db !! id = Some row
  | _, _ => False
  end.

(** The upload call a request of a given kind makes once it is accepted. *)
Definition upload_options (kind : ResourceType) (E : Env) (userId : jsstring)
  : UploadOptions :=
  match kind with
  | RtVideo => VideoUpload.upload_options (VideoUpload.generate_publicId E userId)
  | RtImage => ImageUpload.upload_options (ImageUpload.generate_publicId E userId)
  end.

(** ** The runs of an upload *)

(** A request that passes every check, with the values the handler binds. *)
Definition accepted (kind : ResourceType) (req : UploadRequest)
    (userId : jsstring) (file : File) (title : jsstring) : Prop :=
  first_failing_check kind req = None
  ∧ auth_userId req = Some userId
  ∧ form_file req = Some file
  ∧ form_title req = Some title.

(** The create call of an accepted request, after the upload returned
    [up]. *)
Definition create_event (kind : ResourceType) (req : UploadRequest)
    (userId : jsstring) (file : File) (title : jsstring) (up : UploadResult) : Event :=
  match kind with
  | RtVideo =>
      EVideoCreate
        (VideoUpload.create_data userId file title (form_description req) up)
  | RtImage =>
      EImageCreate
        (ImageUpload.create_data file title (form_description req) up)
  end.

(** The four ways a run of an upload handler ends: rejected by a check,
    failed in the upload, failed in the create, or (videos) stored. *)
Inductive UploadOutcome (kind : ResourceType) (E : Env) (req : UploadRequest)
    (db : Db) : Run Response → Prop :=
| Rejected c :
    first_failing_check kind req = Some c →
    UploadOutcome kind E req db (MkRun (inr (check_error req c)) db [])
| UploadFailed userId file title err resp logs :
    accepted kind req userId file title →
    cloud_upload E (upload_options kind E userId) file = inl err →
    is_server_failure resp = true →
    Forall (λ ev, is_console ev = true) logs →
    UploadOutcome kind E req db
      (MkRun (inr resp) db
         (EUpload (upload_options kind E userId) file (inl err) :: logs))
| CreateFailed userId file title up resp logs :
    accepted kind req userId file title →
    cloud_upload E (upload_options kind E userId) file = inr up →
    is_server_failure resp = true →
    Forall (λ ev, is_console ev = true) logs →
    UploadOutcome kind E req db
      (MkRun (inr resp) db
         (EUpload (upload_options kind E userId) file (inr up)
            :: create_event kind req userId file title up :: logs))
| VideoStored userId file title up :
    kind = RtVideo →
    accepted kind req userId file title →
    cloud_upload E (upload_options kind E userId) file = inr up →
    videos db !! new_row_id E = None →
    Prisma.video_publicId_taken db (res_public_id up) = false →
    UploadOutcome kind E req db
      (let data :=
         VideoUpload.create_data userId file title (form_description req) up in
       let row := Prisma.video_row E data userId in
       MkRun (inr (json (VideoUpload.success_body row (res_secure_url up)) 201))
         {| videos := <[new_row_id E := row]> (videos db); images := images db |}
         [EUpload (upload_options kind E userId) file (inr up);
          EVideoCreate data]).

(** ** Concrete scenarios *)

Module Scenario.

Definition empty_db : Db := {| videos := ∅; images := ∅ |}.

(** A provider that stores the asset under the requested public id and
    reports the given size and duration. *)
Definition stores (bytes : option Z) (duration : option number)
  : UploadOptions → File → JsError + UploadResult :=
  λ o _,
    inr {| res_public_id := public_id o;
           res_secure_url := lit "https://cdn/" ++ public_id o;
           res_bytes := bytes;
           res_duration := duration |}.

Definition provider_error : JsError :=
  {| http_code := Some 502; code := None; message := lit "Bad Gateway" |}.

(** A provider that refuses every call. *)
Definition refuses : UploadOptions → File → JsError + UploadResult :=
  λ _ _, inl provider_error.

(** Clock 123 and random part "abc": the generated public ids are
    "videos/u1/123-abc" and "images/u1/123-abc" for the caller "u1". *)
Definition env (upload : UploadOptions → File → JsError + UploadResult)
    (destroy : option JsError) : Env :=
  {| Date_now := 123;
     random36 := lit "abc";
     cloud_upload := upload;
     cloud_destroy := λ _ _, destroy;
     new_row_id := lit "row-1";
     db_timestamp := 1700000000456 |}.

(** The provider's answer of the spec's scenario: 6000000 bytes,
    duration 42.5. *)
Definition env_ok : Env :=
  env (stores (Some 6000000) (Some (QArith_base.Qmake 85 2))) None.
Definition env_zero_bytes : Env :=
  env (stores (Some 0) (Some (QArith_base.Qmake 85 2))) None.
Definition env_upload_fails : Env := env refuses None.
Definition env_destroy_fails : Env :=
  env (stores (Some 6000000) (Some (QArith_base.Qmake 85 2))) (Some provider_error).

Definition file (type : string) (size : Z) : File :=
  {| file_name := lit "upload.bin"; file_type := lit type; file_size := size |}.

Definition request (type : string) (size : Z) (title : string)
    (description : option jsstring) : UploadRequest :=
  {| auth_userId := Some (lit "u1");
     form_file := Some (file type size);
     form_title := Some (lit title);
     form_description := description |}.

(** A 15 MiB mp4 titled "demo". *)
Definition demo_video : UploadRequest := request "video/mp4" 15728640 "demo" None.

(** The same with a description of spaces only. *)
Definition demo_video_blank_description : UploadRequest :=
  request "video/mp4" 15728640 "demo" (Some (lit "   ")).

(** A png of exactly 10 MiB. *)
Definition png_at_limit : UploadRequest := request "image/png" 10485760 "pic" None.

(** A 2 KiB png titled "pic". *)
Definition small_png : UploadRequest := request "image/png" 2048 "pic" None.

(** A gif with an empty title. *)
Definition gif_without_title : UploadRequest := request "image/gif" 2048 "" None.

(** A gif of 11 MiB with a title. *)
Definition big_gif : UploadRequest := request "image/gif" 11534336 "pic" None.

Definition video_of_u1 : VideoRow :=
  {| v_id := lit "v1"; v_title := lit "demo"; v_description := None;
     v_publicId := lit "videos/u1/123-abc"; v_userId := lit "u1";
     v_originalSize := 15728640; v_compressedSize := 6000000;
     v_duration := QArith_base.Qmake 85 2;
     v_createdAt := 1700000000000; v_updatedAt := 1700000000000 |}.

Definition video_of_u2 : VideoRow :=
  {| v_id := lit "v2"; v_title := lit "other"; v_description := None;
     v_publicId := lit "videos/u2/456-def"; v_userId := lit "u2";
     v_originalSize := 1000; v_compressedSize := 900;
     v_duration := QArith_base.Qmake 3 1;
     v_createdAt := 1700000005000; v_updatedAt := 1700000005000 |}.

Definition image_of_u1 : ImageRow :=
  {| i_id := lit "i1"; i_title := lit "pic"; i_description := None;
     i_publicId := lit "images/u1/123-abc"; i_userId := lit "u1";
     i_originalSize := 2048;
     i_createdAt := 1700000001000; i_updatedAt := 1700000001000 |}.

Definition library : Db :=
  {| videos := <[lit "v1" := video_of_u1]> (<[lit "v2" := video_of_u2]> ∅);
     images := <[lit "i1" := image_of_u1]> ∅ |}.

(** A second, newer video of "u1", added to the library. *)
Definition newer_video_of_u1 : VideoRow :=
  {| v_id := lit "v3"; v_title := lit "later"; v_description := None;
     v_publicId := lit "videos/u1/789-ghi"; v_userId := lit "u1";
     v_originalSize := 4096; v_compressedSize := 4000;
     v_duration := QArith_base.Qmake 7 1;
     v_createdAt := 1700000009000; v_updatedAt := 1700000009000 |}.

Definition shared_library : Db :=
  {| videos := <[lit "v3" := newer_video_of_u1]> (videos library);
     images := images library |}.

(** A library that holds only the video of "u2". *)
Definition library_of_u2 : Db :=
  {| videos := <[lit "v2" := video_of_u2]> ∅; images := ∅ |}.

Definition delete_by (user : string) (id : string) : DeleteRequest :=
  {| del_userId := Some (lit user); del_id := lit id |}.

End Scenario.

(** ** The constraints of the tables *)

(** What the migrations ask of a table: "id" is the primary key (the map's
    key is the row's id) and "publicId" is unique. *)
Definition videos_ok (t : gmap jsstring VideoRow) : Prop :=
  (∀ id row, t !! id = Some row → v_id row = id)
  ∧ (∀ id1 id2 r1 r2,
       t !! id1 = Some r1 → t !! id2 = Some r2 →
       v_publicId r1 = v_publicId r2 → id1 = id2).

Definition images_ok (t : gmap jsstring ImageRow) : Prop :=
  (∀ id row, t !! id = Some row → i_id row = id)
  ∧ (∀ id1 id2 r1 r2,
       t !! id1 = Some r1 → t !! id2 = Some r2 →
       i_publicId r1 = i_publicId r2 → id1 = id2).

Definition constraints_hold (db : Db) : Prop :=
  videos_ok (videos db) ∧ images_ok (images db).


(** The first path segment of the public ids of a kind. *)
Definition folder (kind : ResourceType) : jsstring :=
  match kind with
  | RtVideo => lit "videos/"
  | RtImage => lit "images/"
  end.

(** ** lib/download.ts and lib/format.ts: Cloudinary URLs *)

(** The URL builders read [process.env.NEXT_PUBLIC_CLOUDINARY_CLOUD_NAME],
    here the argument [cloudName] ([None] when the variable is not set);
    each returns the URL together with the lines it writes to the
    console. *)

Module Download.

Inductive ImageSizePreset :=
| instagram_square    (* "instagram-square" *)
| instagram_story     (* "instagram-story" *)
| twitter_header      (* "twitter-header" *)
| youtube_thumbnail   (* "youtube-thumbnail" *)
| facebook_cover      (* "facebook-cover" *)
| profile_picture     (* "profile-picture" *)
| thumbnail
| original.

Record PresetInfo := {
  width : option Z;
  height : option Z;
  name : string;
  description : string;
}.

(** The table [imageSizePresets]. *)
Definition imageSizePresets (preset : ImageSizePreset) : PresetInfo :=
  match preset with
  | instagram_square =>
      {| width := Some 1080; height := Some 1080; name := "Instagram Post";
         description := "Square (1080×1080)" |}
  | instagram_story =>
      {| width := Some 1080; height := Some 1920; name := "Instagram Story";
         description := "Portrait (1080×1920)" |}
  | twitter_header =>
      {| width := Some 1500; height := Some 500; name := "Twitter Header";
         description := "Banner (1500×500)" |}
  | youtube_thumbnail =>
      {| width := Some 1280; height := Some 720; name := "YouTube Thumbnail";
         description := "Landscape (1280×720)" |}
  | facebook_cover =>
      {| width := Some 820; height := Some 312; name := "Facebook Cover";
         description := "Wide (820×312)" |}
  | profile_picture =>
      {| width := Some 400; height := Some 400; name := "Profile Picture";
         description := "Small Square (400×400)" |}
  | thumbnail =>
      {| width := Some 400; height := Some 300; name := "Thumbnail";
         description := "Small (400×300)" |}
  | original =>
      {| width := None; height := None; name := "Original Size";
         description := "Full resolution" |}
  end.

Definition getImageDownloadUrl (cloudName : option jsstring)
    (publicId : jsstring) (preset : ImageSizePreset) : jsstring * list string :=
  if negb (Js.truthy_string cloudName) then
    (lit "", ["NEXT_PUBLIC_CLOUDINARY_CLOUD_NAME is not set"])
  else
    let cloudName := default [] cloudName in
    let info := imageSizePresets preset in
    (* If original size, no transformations (but force download) *)
    if negb (Js.truthy_int (width info)) || negb (Js.truthy_int (height info)) then
      (lit "https://res.cloudinary.com/" ++ cloudName
         ++ lit "/image/upload/fl_attachment/" ++ publicId, [])
    else
      let transformation :=
        lit "w_" ++ lit (pretty (default 0 (width info)))
          ++ lit ",h_" ++ lit (pretty (default 0 (height info)))
          ++ lit ",c_fill,q_auto,f_auto,fl_attachment" in
      (lit "https://res.cloudinary.com/" ++ cloudName ++ lit "/image/upload/"
         ++ transformation ++ lit "/" ++ publicId, []).

Definition getVideoDownloadUrl (cloudName : option jsstring)
    (publicId : jsstring) : jsstring * list string :=
  if negb (Js.truthy_string cloudName) then
    (lit "", ["NEXT_PUBLIC_CLOUDINARY_CLOUD_NAME is not set"])
  else
    let cloudName := default [] cloudName in
    (lit "https://res.cloudinary.com/" ++ cloudName
       ++ lit "/video/upload/fl_attachment/" ++ publicId, []).

End Download.

Module Format.

Inductive MediaType := image | video.

Definition getCloudinaryThumbnailUrl (cloudName : option jsstring)
    (publicId : jsstring) (type : MediaType) : jsstring * list string :=
  if negb (Js.truthy_string cloudName) then
    (lit "", ["NEXT_PUBLIC_CLOUDINARY_CLOUD_NAME is not set"])
  else
    let cloudName := default [] cloudName in
    let transformation := lit "w_400,h_300,c_fill,q_auto,f_auto" in
    match type with
    | video =>
        (* For videos, get the first frame as thumbnail *)
        (lit "https://res.cloudinary.com/" ++ cloudName ++ lit "/video/upload/"
           ++ transformation ++ lit "/" ++ publicId ++ lit ".jpg", [])
    | image =>
        (lit "https://res.cloudinary.com/" ++ cloudName ++ lit "/image/upload/"
           ++ transformation ++ lit "/" ++ publicId, [])
    end.

End Format.

(** The flags between ".../upload/" and the public id in a download URL
    of a preset. *)
Definition download_flags (preset : Download.ImageSizePreset) : jsstring :=
  match Download.width (Download.imageSizePresets preset),
        Download.height (Download.imageSizePresets preset) with
  | Some w, Some h =>
      lit "w_" ++ lit (pretty w) ++ lit ",h_" ++ lit (pretty h)
        ++ lit ",c_fill,q_auto,f_auto,fl_attachment"
  | _, _ => lit "fl_attachment"
  end.

(** ** The upload pages *)

Module Page.

(** What a page's [fetch] sends: the entries appended to the form data. *)
Record FormData := {
  fd_file : option File;
  fd_title : option jsstring;
  fd_description : option jsstring;
}.

(** The request the route handler sees: the form data and the session of
    the browser. *)
Definition request_of (session : option jsstring) (fd : FormData) : UploadRequest :=
  {| auth_userId := session;
     form_file := fd_file fd;
     form_title := fd_title fd;
     form_description := fd_description fd |}.

Inductive UploadState := idle | uploading | success | error.

(** The texts a page shows in [errorMessage]. *)
Inductive PageMessage :=
| NoMessage                               (* "" *)
| PageInvalidFormat (received : jsstring) (* "Invalid file format. ... Received: ${file.type}" *)
| PageFileTooLarge (size : Z)             (* "File size exceeds ...MB limit. Your file: ...MB" *)
| SelectFileAndTitle                      (* "Please select a file and provide a title" *)
| ServerMessage (e : ErrorText)           (* errorData.error *)
| UploadFailed_                           (* "Upload failed" *)
| ThrownMessage (m : jsstring)            (* the message of the error [fetch] threw *)
| FailedToUpload.                         (* "Failed to upload video" / "... image" *)

(** [response.ok] *)
Definition response_ok (r : Response) : bool :=
  (200 <=? status r) && (status r <=? 299).

(** The state of an upload page: the form, and the state of the upload.
    [uploaded] is [uploadedVideo] or [uploadedImage]. *)
Record PageState := {
  file : option File;
  title : jsstring;
  description : jsstring;
  uploadState : UploadState;
  uploadProgress : Z;
  errorMessage : PageMessage;
  uploaded : option Body;
  isDragging : bool;
}.

(** [useState] initial values. *)
Definition initial_page : PageState :=
  {| file := None; title := []; description := [];
     uploadState := idle; uploadProgress := 0; errorMessage := NoMessage;
     uploaded := None; isDragging := false |}.

(** The body of [handleUpload], shared by the two pages up to the message
    of the last resort. [fetch] is the answer of the network to the one
    request; the state returned is the one right after the answer: the
    ticks of the simulated progress bar before it and the delayed reset of
    the form after it are timers and are not part of it. The second
    component lists the requests sent. *)
Definition handleUpload_with (fetch : FormData → JsError + Response)
    (st : PageState) : PageState * list FormData :=
  match file st with
  | Some f =>
      if negb (Js.truthy_string (Some (Js.trim (title st)))) then
        ({| file := file st; title := title st; description := description st;
            uploadState := error; uploadProgress := uploadProgress st;
            errorMessage := SelectFileAndTitle;
            uploaded := uploaded st; isDragging := isDragging st |}, [])
      else
        let formData :=
          {| fd_file := Some f;
             fd_title := Some (Js.trim (title st));
             fd_description :=
               if Js.truthy_string (Some (Js.trim (description st)))
               then Some (Js.trim (description st))
               else None |} in
        let failed (m : PageMessage) :=
          {| file := file st; title := title st; description := description st;
             uploadState := error; uploadProgress := 0;
             errorMessage := m;
             uploaded := uploaded st; isDragging := isDragging st |} in
        match fetch formData with
        | inl thrown =>
            (failed (if Js.truthy_string (Some (message thrown))
                     then ThrownMessage (message thrown)
                     else FailedToUpload),
             [formData])
        | inr response =>
            if negb (response_ok response) then
              (failed (match body response with
                       | Error e => ServerMessage e
                       | _ => UploadFailed_
                       end),
               [formData])
            else
              ({| file := file st; title := title st;
                  description := description st;
                  uploadState := success; uploadProgress := 100;
                  errorMessage := NoMessage;
                  uploaded := Some (body response);
                  isDragging := isDragging st |},
               [formData])
        end
  | None =>
      ({| file := file st; title := title st; description := description st;
          uploadState := error; uploadProgress := uploadProgress st;
          errorMessage := SelectFileAndTitle;
          uploaded := uploaded st; isDragging := isDragging st |}, [])
  end.

End Page.

Module VideoUploadPage.

Import Page.

(** Constants matching backend validation *)
Definition MAX_FILE_SIZE : Z := 20 * 1024 * 1024.

Definition ALLOWED_FORMATS : list jsstring := [
  lit "video/mp4";
  lit "video/mpeg";
  lit "video/quicktime";
  lit "video/x-msvideo";
  lit "video/webm";
  lit "video/x-matroska"
].

Definition validateFile (file : File) : option PageMessage :=
  (* Check file type *)
  if negb (Js.includes ALLOWED_FORMATS (file_type file)) then
    Some (PageInvalidFormat (file_type file))
  (* Check file size *)
  else if file_size file >? MAX_FILE_SIZE then
    Some (PageFileTooLarge (file_size file))
  else None.

(** The common body of [handleFileChange] and [handleDrop], for the file
    picked or dropped ([None] when there is none). *)
Definition take_file (selectedFile : option File) (st : PageState) : PageState :=
  match selectedFile with
  | None => st
  | Some f =>
      match validateFile f with
      | Some err =>
          {| file := file st; title := title st; description := description st;
             uploadState := error; uploadProgress := uploadProgress st;
             errorMessage := err;
             uploaded := uploaded st; isDragging := isDragging st |}
      | None =>
          {| file := Some f; title := title st; description := description st;
             uploadState := idle; uploadProgress := uploadProgress st;
             errorMessage := NoMessage;
             uploaded := uploaded st; isDragging := isDragging st |}
      end
  end.

Definition handleFileChange (selectedFile : option File) (st : PageState) : PageState :=
  take_file selectedFile st.

Definition handleDrop (droppedFile : option File) (st : PageState) : PageState :=
  take_file droppedFile
    {| file := file st; title := title st; description := description st;
       uploadState := uploadState st; uploadProgress := uploadProgress st;
       errorMessage := errorMessage st;
       uploaded := uploaded st; isDragging := false |}.

Definition handleUpload := handleUpload_with.

Definition handleReset (st : PageState) : PageState :=
  {| file := None; title := []; description := [];
     uploadState := idle; uploadProgress := 0; errorMessage := NoMessage;
     uploaded := None; isDragging := isDragging st |}.

End VideoUploadPage.

Module ImageUploadPage.

Import Page.

Definition MAX_FILE_SIZE : Z := 10 * 1024 * 1024.

Definition ALLOWED_FORMATS : list jsstring :=
  [lit "image/jpeg"; lit "image/png"; lit "image/webp"].

Definition validateFile (file : File) : option PageMessage :=
  (* Check file type *)
  if negb (Js.includes ALLOWED_FORMATS (file_type file)) then
    Some (PageInvalidFormat (file_type file))
  (* Check file size *)
  else if file_size file >? MAX_FILE_SIZE then
    Some (PageFileTooLarge (file_size file))
  else None.

Definition handleUpload := handleUpload_with.

End ImageUploadPage.

Definition page_validateFile (kind : ResourceType) : File → option Page.PageMessage :=
  match kind with
  | RtVideo => VideoUploadPage.validateFile
  | RtImage => ImageUploadPage.validateFile
  end.

(** The form of a page holds no file, or a file that passed
    [validateFile]. *)
Definition file_was_validated (kind : ResourceType) (st : Page.PageState) : Prop :=
  ∀ f, Page.file st = Some f → page_validateFile kind f = None.

(** ** The dashboard *)

Module Dashboard.

Inductive ItemType := video | image.

Record Item := {
  id : jsstring;
  title : jsstring;
  type : ItemType;
}.

(** The part of the dashboard's state that [handleDelete] reads and
    writes; the lists hold the rows the listing routes returned. *)
Record State := {
  videos : list VideoRow;
  images : list ImageRow;
  itemToDelete : option Item;
  isDeleting : bool;
}.

(** The texts [handleDelete] shows with [alert]. *)
Inductive Alert :=
| ServerSaid (e : ErrorText)     (* errorData.error *)
| FailedToDelete_                (* "Failed to delete" *)
| Thrown (m : jsstring).         (* the message of the error [fetch] threw *)

(** [handleDelete]: [fetch] is the answer of the network to the DELETE
    request for "/api/video/<id>" or "/api/image/<id>"; the result is the
    state when the handler has finished, the requests sent and the alerts
    shown. *)
Definition handleDelete (fetch : ItemType → jsstring → JsError + Response)
    (st : State) : State * list (ItemType * jsstring) * list Alert :=
  match itemToDelete st with
  | None => (st, [], [])
  | Some item =>
      let failed (a : Alert) :=
        ({| videos := videos st; images := images st;
            itemToDelete := itemToDelete st; isDeleting := false |},
         [(type item, id item)], [a]) in
      match fetch (type item) (id item) with
      | inl thrown => failed (Thrown (message thrown))
      | inr response =>
          if negb (Page.response_ok response) then
            failed (match body response with
                    | Error e => ServerSaid e
                    | _ => FailedToDelete_
                    end)
          else
            (* Remove from local state to update UI immediately *)
            (match type item with
             | video =>
                 {| videos :=
                      filter (λ v, v_id v ≠ id item) (videos st);
                    images := images st;
                    itemToDelete := None; isDeleting := false |}
             | image =>
                 {| videos := videos st;
                    images :=
                      filter (λ i, i_id i ≠ id item) (images st);
                    itemToDelete := None; isDeleting := false |}
             end,
             [(type item, id item)], [])
      end
  end.

Definition kind_of (t : ItemType) : ResourceType :=
  match t with
  | video => RtVideo
  | image => RtImage
  end.

End Dashboard.

(** Every row the dashboard shows is a row of the database. *)
Definition dashboard_shows_stored_rows (st : Dashboard.State) (db : Db) : Prop :=
  (∀ v, v ∈ Dashboard.videos st → videos db !! v_id v = Some v)
  ∧ (∀ i, i ∈ Dashboard.images st → images db !! i_id i = Some i).

(** * Properties *)

(** ** Trimming *)

Lemma blank_cons c s :
  blank (c :: s) ↔ Js.isWhiteSpace c = true ∧ blank s.
Proof. unfold blank. apply (Forall_cons (λ x, Js.isWhiteSpace x = true)). Qed.

Lemma trimStart_nil_iff s : Js.trimStart s = [] ↔ blank s.
Proof.
  induction s as [|c s IH]; simpl.
  - split; [constructor | reflexivity].
  - rewrite blank_cons. destruct (Js.isWhiteSpace c) eqn:Hc.
    + rewrite IH. tauto.
    + split; [discriminate | intros [? _]; discriminate].
Qed.

Lemma trimStart_idemp s : Js.trimStart (Js.trimStart s) = Js.trimStart s.
Proof.
  induction s as [|c s IH]; simpl; [reflexivity|].
  destruct (Js.isWhiteSpace c) eqn:Hc; [exact IH|].
  simpl. now rewrite Hc.
Qed.

Example trim_demo : Js.trim (lit "  demo ") = lit "demo".
Proof. reflexivity. Qed.

Example trim_unicode_space :
  Js.trim [0x00A0; 0x0061; 0x0020; 0x0062; 0xFEFF; 0x000A]%N
  = [0x0061; 0x0020; 0x0062]%N.
Proof. reflexivity. Qed.

(** [s.trim()] is the empty string exactly when [s] is blank. *)
Lemma trim_nil_iff s : Js.trim s = [] ↔ blank s.
Proof.
  unfold Js.trim, Js.trimEnd.
  rewrite <- trimStart_nil_iff.
  split.
  - intros H. apply (f_equal reverse) in H. rewrite reverse_involutive in H.
    change (reverse []) with (@nil N) in H.
    apply trimStart_nil_iff in H. unfold blank in H.
    rewrite Forall_reverse in H. apply trimStart_nil_iff in H.
    now rewrite trimStart_idemp in H.
  - intros ->. reflexivity.
Qed.

(** The first and the last character of a trimmed string are not
    white space. *)
Lemma trimStart_head s c r :
  Js.trimStart s = c :: r → Js.isWhiteSpace c = false.
Proof.
  induction s as [|a s IH]; simpl; [discriminate|].
  destruct (Js.isWhiteSpace a) eqn:Ha; [exact IH|].
  intros [= -> _]. exact Ha.
Qed.

Lemma trim_or_null_spec (d : option jsstring) :
  Js.trim_or_null d =
    match d with
    | None => None
    | Some s => if decide (blank s) then None else Some (Js.trim s)
    end.
Proof.
  destruct d as [s|]; [|reflexivity].
  unfold Js.trim_or_null. simpl.
  destruct (decide (blank s)) as [Hb|Hb].
  - apply trim_nil_iff in Hb. now rewrite Hb.
  - destruct (Js.trim s) eqn:Ht; [|reflexivity].
    exfalso. apply Hb. now apply trim_nil_iff.
Qed.

Lemma title_missing_spec (t : option jsstring) :
  title_missing t = true ↔ match t with None => True | Some s => blank s end.
Proof.
  unfold title_missing. destruct t as [s|]; simpl; [|tauto].
  rewrite <- trim_nil_iff.
  destruct s as [|c s]; simpl; [tauto|].
  destruct (Js.trim (c :: s)) eqn:Ht; simpl; split; auto; discriminate.
Qed.

(** ** The catch blocks *)

Lemma video_on_error_run err db :
  ∃ resp logs,
    VideoUpload.on_error err db = MkRun (inr resp) db logs
    ∧ is_server_failure resp = true
    ∧ Forall (λ ev, is_console ev = true) logs.
Proof.
  unfold VideoUpload.on_error, bind, console_error, emit, ret. simpl.
  destruct (Js.truthy_int (http_code err)); simpl.
  - do 2 eexists. split; [reflexivity|]. split; [reflexivity|].
    repeat constructor.
  - destruct (Js.truthy_string (code err) && _); simpl;
      do 2 eexists; (split; [reflexivity|]); (split; [reflexivity|]);
      repeat constructor.
Qed.

Lemma image_on_error_run err db :
  ∃ resp logs,
    ImageUpload.on_error err db = MkRun (inr resp) db logs
    ∧ is_server_failure resp = true
    ∧ Forall (λ ev, is_console ev = true) logs.
Proof.
  unfold ImageUpload.on_error, bind, console_error, emit, ret. simpl.
  destruct (Js.truthy_int (http_code err)); simpl.
  - do 2 eexists. split; [reflexivity|]. split; [reflexivity|].
    repeat constructor.
  - destruct (Js.truthy_string (code err) && _); simpl;
      do 2 eexists; (split; [reflexivity|]); (split; [reflexivity|]);
      repeat constructor.
Qed.

(** ** The runs of the upload handlers *)

(** Closes an outcome goal with the check that rejects the request. *)
Ltac reject c :=
  match goal with
  | |- UploadOutcome ?k ?E ?r ?d _ => apply (Rejected k E r d c)
  end.

(** Runs the monad's operations in the goal. *)
Ltac run_monad :=
  cbv beta iota zeta delta
    [try_catch bind ret throw emit console_error
     Cloudinary.upload_stream Cloudinary.destroy
     result db_after calls app].

(** Decides which check, if any, rejects a request whose fields are
    known. *)
Ltac decide_checks :=
  unfold first_failing_check, check_order, List.find, check_fails,
    unauthenticated, title_missing, format_rejected, size_rejected;
  cbn [auth_userId form_file form_title Js.truthy_string negb orb default
       from_option id ALLOWED_FORMATS MAX_FILE_SIZE].

Lemma video_outcome E req db :
  UploadOutcome RtVideo E req db (VideoUpload.POST E req db).
Proof.
  destruct req as [auth file title description].
  unfold VideoUpload.POST.
  destruct auth as [[|u0 u]|];
    [ reject CheckCaller; reflexivity
    | | reject CheckCaller; reflexivity ].
  destruct file as [file|]; [| reject CheckFile; reflexivity ].
  destruct title as [[|t0 t]|];
    [ reject CheckTitle; reflexivity
    | | reject CheckTitle; reflexivity ].
  cbn [auth_userId form_file form_title form_description].
  destruct (length (Js.trim (t0 :: t)) =? 0)%nat eqn:Htitle.
  { reject CheckTitle. decide_checks. now rewrite Htitle. }
  destruct (negb (Js.includes VideoUpload.ALLOWED_FORMATS (file_type file)))
    eqn:Hfmt.
  { reject CheckFormat. decide_checks. now rewrite Htitle, Hfmt. }
  destruct (file_size file >? VideoUpload.MAX_FILE_SIZE) eqn:Hsize.
  { reject CheckSize. decide_checks. now rewrite Htitle, Hfmt, Hsize. }
  assert (Hacc : accepted RtVideo
            {| auth_userId := Some (u0 :: u); form_file := Some file;
               form_title := Some (t0 :: t); form_description := description |}
            (u0 :: u) file (t0 :: t)).
  { repeat split. decide_checks. now rewrite Htitle, Hfmt, Hsize. }
  change (VideoUpload.upload_options (VideoUpload.generate_publicId E (u0 :: u)))
    with (upload_options RtVideo E (u0 :: u)).
  run_monad.
  destruct (cloud_upload E (upload_options RtVideo E (u0 :: u)) file)
    as [err|up] eqn:Hup.
  { destruct (video_on_error_run err db) as (resp & logs & Hrun & Hf & Hl).
    rewrite Hrun. eapply UploadFailed; eauto. }
  unfold Prisma.video_create. run_monad.
  cbn [vd_userId VideoUpload.create_data vd_publicId].
  destruct (bool_decide (is_Some (videos db !! new_row_id E))) eqn:Hid;
    cbn [orb].
  { destruct (video_on_error_run Prisma.unique_violation db)
      as (resp & logs & Hrun & Hf & Hl).
    rewrite Hrun. eapply (CreateFailed RtVideo); eauto. }
  destruct (Prisma.video_publicId_taken db (res_public_id up)) eqn:Hpub.
  { destruct (video_on_error_run Prisma.unique_violation db)
      as (resp & logs & Hrun & Hf & Hl).
    rewrite Hrun. eapply (CreateFailed RtVideo); eauto. }
  match goal with
  | |- UploadOutcome _ _ ?r _ _ =>
      apply (VideoStored RtVideo E r db (u0 :: u) file (t0 :: t) up); auto
  end.
  apply bool_decide_eq_false in Hid.
  now apply eq_None_not_Some.
Qed.

Lemma image_outcome E req db :
  UploadOutcome RtImage E req db (ImageUpload.POST E req db).
Proof.
  destruct req as [auth file title description].
  unfold ImageUpload.POST.
  destruct auth as [[|u0 u]|];
    [ reject CheckCaller; reflexivity
    | | reject CheckCaller; reflexivity ].
  destruct file as [file|]; [| reject CheckFile; reflexivity ].
  destruct title as [[|t0 t]|];
    [ reject CheckTitle; reflexivity
    | | reject CheckTitle; reflexivity ].
  cbn [auth_userId form_file form_title form_description].
  destruct (length (Js.trim (t0 :: t)) =? 0)%nat eqn:Htitle.
  { reject CheckTitle. decide_checks. now rewrite Htitle. }
  destruct (negb (Js.includes ImageUpload.ALLOWED_FORMATS (file_type file)))
    eqn:Hfmt.
  { reject CheckFormat. decide_checks. now rewrite Htitle, Hfmt. }
  destruct (file_size file >? ImageUpload.MAX_FILE_SIZE) eqn:Hsize.
  { reject CheckSize. decide_checks. now rewrite Htitle, Hfmt, Hsize. }
  assert (Hacc : accepted RtImage
            {| auth_userId := Some (u0 :: u); form_file := Some file;
               form_title := Some (t0 :: t); form_description := description |}
            (u0 :: u) file (t0 :: t)).
  { repeat split. decide_checks. now rewrite Htitle, Hfmt, Hsize. }
  change (ImageUpload.upload_options (ImageUpload.generate_publicId E (u0 :: u)))
    with (upload_options RtImage E (u0 :: u)).
  run_monad.
  destruct (cloud_upload E (upload_options RtImage E (u0 :: u)) file)
    as [err|up] eqn:Hup.
  { destruct (image_on_error_run err db) as (resp & logs & Hrun & Hf & Hl).
    rewrite Hrun. eapply UploadFailed; eauto. }
  unfold Prisma.image_create. run_monad.
  cbn [id_userId ImageUpload.create_data].
  destruct (image_on_error_run (Prisma.validation_error "userId") db)
    as (resp & logs & Hrun & Hf & Hl).
  rewrite Hrun. eapply (CreateFailed RtImage); eauto.
Qed.

Lemma upload_outcome kind E req db :
  UploadOutcome kind E req db (upload_POST kind E req db).
Proof. destruct kind; [apply video_outcome | apply image_outcome]. Qed.

(** A handler always answers: no error escapes its try/catch. *)
Lemma upload_responds kind E req db :
  ∃ resp, result (upload_POST kind E req db) = inr resp.
Proof.
  destruct (upload_outcome kind E req db); cbn; eauto.
Qed.

(** What an accepted request is. *)
Lemma accepted_inv kind req userId file title :
  accepted kind req userId file title →
  userId ≠ []
  ∧ ¬ blank title
  ∧ file_type file ∈ ALLOWED_FORMATS kind
  ∧ file_size file ≤ MAX_FILE_SIZE kind.
Proof.
  intros (Hc & Ha & Hf & Ht). revert Hc.
  unfold first_failing_check, check_order, List.find, check_fails,
    unauthenticated, title_missing, format_rejected, size_rejected.
  rewrite Ha, Hf, Ht.
  destruct userId as [|u0 u]; [discriminate|].
  destruct title as [|t0 t]; [discriminate|].
  cbn [Js.truthy_string negb orb default from_option id].
  destruct (length (Js.trim (t0 :: t)) =? 0)%nat eqn:Htitle; [discriminate|].
  destruct (Js.includes (ALLOWED_FORMATS kind) (file_type file)) eqn:Hfmt;
    [|discriminate].
  cbn [negb].
  destruct (file_size file >? MAX_FILE_SIZE kind) eqn:Hsize; [discriminate|].
  intros _. repeat split.
  - discriminate.
  - rewrite <- trim_nil_iff. intros Hnil. now rewrite Hnil in Htitle.
  - unfold Js.includes in Hfmt. now apply bool_decide_eq_true in Hfmt.
  - rewrite Z.gtb_ltb in Hsize. apply Z.ltb_ge in Hsize. lia.
Qed.

(** The first failing check, check by check. *)
Lemma first_failing_check_eq kind req :
  first_failing_check kind req =
    if unauthenticated (auth_userId req) then Some CheckCaller
    else match form_file req with
         | None => Some CheckFile
         | Some f =>
             if title_missing (form_title req) then Some CheckTitle
             else if format_rejected kind f then Some CheckFormat
             else if size_rejected kind f then Some CheckSize
             else None
         end.
Proof.
  unfold first_failing_check, check_order, List.find, check_fails.
  destruct (form_file req); reflexivity.
Qed.

Lemma server_failure_is_failure resp :
  is_server_failure resp = true → is_failure resp = true.
Proof.
  unfold is_server_failure, is_failure.
  destruct (body resp) as [[]| | |]; auto.
Qed.

Lemma check_error_is_failure req c : is_failure (check_error req c) = true.
Proof. destruct c; reflexivity. Qed.

(** A successful video upload is a run that stored the row. *)
Lemma video_success_inv E req db v s :
  result (VideoUpload.POST E req db) = inr (json (VideoUploaded v) s) →
  ∃ userId file title up,
    accepted RtVideo req userId file title
    ∧ cloud_upload E (upload_options RtVideo E userId) file = inr up
    ∧ videos db !! new_row_id E = None
    ∧ Prisma.video_publicId_taken db (res_public_id up) = false
    ∧ VideoUpload.POST E req db =
        (let data :=
           VideoUpload.create_data userId file title (form_description req) up in
         let row := Prisma.video_row E data userId in
         MkRun (inr (json (VideoUpload.success_body row (res_secure_url up)) 201))
           {| videos := <[new_row_id E := row]> (videos db); images := images db |}
           [EUpload (upload_options RtVideo E userId) file (inr up);
            EVideoCreate data]).
Proof.
  destruct (video_outcome E req db)
    as [c Hc | userId file title err resp logs Hacc Hup Hf Hl
        | userId file title up resp logs Hacc Hup Hf Hl
        | userId file title up _ Hacc Hup Hid Hpub]; cbn [result].
  - destruct c; discriminate.
  - intros [= ->]. discriminate.
  - intros [= ->]. discriminate.
  - intros _. exists userId, file, title, up. auto.
Qed.

(** ** Ownership of uploaded records *)

(** C1 (the image route departs from it): a valid image upload by the
    authenticated caller "u1" reaches [prisma.image.create] with a data
    object that has no [userId]; the create is refused, no image row is
    stored, and the caller gets the generic 500 response after the asset
    has been uploaded. *)
Theorem image_upload_stores_no_owner :
  let run := ImageUpload.POST Scenario.env_ok Scenario.small_png Scenario.empty_db in
  accepted RtImage Scenario.small_png (lit "u1")
    (Scenario.file "image/png" 2048) (lit "pic")
  ∧ result run = inr (json (Error InternalServerError) 500)
  ∧ db_after run = Scenario.empty_db
  ∧ calls run =
      [EUpload (upload_options RtImage Scenario.env_ok (lit "u1"))
         (Scenario.file "image/png" 2048)
         (cloud_upload Scenario.env_ok
            (upload_options RtImage Scenario.env_ok (lit "u1"))
            (Scenario.file "image/png" 2048));
       EImageCreate
         {| id_title := lit "pic"; id_description := None;
            id_publicId := lit "images/u1/123-abc"; id_userId := None;
            id_originalSize := 2048 |};
       EConsoleError "Unexpected error during upload:";
       EConsoleError "Generic server error:"].
Proof.
  cbv zeta. split; [|split; [|split]].
  - repeat split.
  - vm_compute. reflexivity.
  - vm_compute. reflexivity.
  - vm_compute. reflexivity.
Qed.

(** The image route never stores a row, whatever the request: every data
    object it hands to [prisma.image.create] lacks the owner, and every
    response is an error. *)
Lemma image_upload_never_stores E req db :
  let run := ImageUpload.POST E req db in
  db_after run = db
  ∧ (∀ d, EImageCreate d ∈ calls run → id_userId d = None)
  ∧ (∀ resp, result run = inr resp → is_failure resp = true).
Proof.
  cbv zeta.
  destruct (image_outcome E req db)
    as [c Hc | userId file title err resp logs Hacc Hup Hf Hl
        | userId file title up resp logs Hacc Hup Hf Hl
        | userId file title up Hk Hacc Hup Hid Hpub];
    cbn [result db_after calls]; [ | | | discriminate Hk].
  - split; [reflexivity|]. split.
    + intros d Hd. apply elem_of_nil in Hd. contradiction.
    + intros resp [= <-]. apply check_error_is_failure.
  - split; [reflexivity|]. split.
    + intros d Hd. apply elem_of_cons in Hd as [Hd|Hd]; [discriminate|].
      rewrite Forall_forall in Hl. apply Hl in Hd. discriminate.
    + intros r [= <-]. now apply server_failure_is_failure.
  - split; [reflexivity|]. split.
    + intros d Hd. apply elem_of_cons in Hd as [Hd|Hd]; [discriminate|].
      apply elem_of_cons in Hd as [Hd|Hd].
      * injection Hd as ->. reflexivity.
      * rewrite Forall_forall in Hl. apply Hl in Hd. discriminate.
    + intros r [= <-]. now apply server_failure_is_failure.
Qed.

(** The video route stores the caller as the owner: after a successful
    video upload the new row's [userId] is the session's [userId]. *)
Lemma video_upload_owner E req db v s :
  result (VideoUpload.POST E req db) = inr (json (VideoUploaded v) s) →
  ∃ userId row,
    auth_userId req = Some userId
    ∧ videos db !! new_row_id E = None
    ∧ videos (db_after (VideoUpload.POST E req db))
        = <[new_row_id E := row]> (videos db)
    ∧ images (db_after (VideoUpload.POST E req db)) = images db
    ∧ v_userId row = userId.
Proof.
  intros Hok.
  destruct (video_success_inv E req db v s Hok)
    as (userId & file & title & up & Hacc & Hup & Hid & Hpub & Hrun).
  rewrite Hrun. cbv zeta. cbn [db_after videos images].
  destruct Hacc as (_ & Ha & _ & _).
  eexists userId, _. repeat split; eauto.
Qed.

Lemma video_upload_owner_example :
  result (VideoUpload.POST Scenario.env_ok Scenario.demo_video Scenario.empty_db)
    = inr (json (VideoUpload.success_body
                   (Prisma.video_row Scenario.env_ok
                      (VideoUpload.create_data (lit "u1")
                         (Scenario.file "video/mp4" 15728640) (lit "demo") None
                         {| res_public_id := lit "videos/u1/123-abc";
                            res_secure_url := lit "https://cdn/videos/u1/123-abc";
                            res_bytes := Some 6000000;
                            res_duration := Some (QArith_base.Qmake 85 2) |})
                      (lit "u1"))
                   (lit "https://cdn/videos/u1/123-abc")) 201)
  ∧ ∃ userId row,
      auth_userId Scenario.demo_video = Some userId
      ∧ videos Scenario.empty_db !! new_row_id Scenario.env_ok = None
      ∧ videos (db_after (VideoUpload.POST Scenario.env_ok Scenario.demo_video
                            Scenario.empty_db))
          = <[new_row_id Scenario.env_ok := row]> (videos Scenario.empty_db)
      ∧ images (db_after (VideoUpload.POST Scenario.env_ok Scenario.demo_video
                            Scenario.empty_db))
          = images Scenario.empty_db
      ∧ v_userId row = userId.
Proof.
  split.
  - vm_compute. reflexivity.
  - eapply video_upload_owner. vm_compute. reflexivity.
Defined.

(** ** Upload before store *)

Lemma console_not_write logs :
  Forall (λ ev, is_console ev = true) logs →
  Forall (λ ev, is_store_write ev = false) logs.
Proof.
  intros Hl. eapply Forall_impl; [exact Hl|].
  intros [] H; try discriminate H; reflexivity.
Qed.

Lemma write_position (before after l : list Event) ev x :
  x :: l = before ++ ev :: after →
  is_store_write x = false →
  is_store_write ev = true →
  ∃ before', before = x :: before' ∧ l = before' ++ ev :: after.
Proof.
  intros Heq Hx Hev. destruct before as [|y before'].
  - cbn in Heq. injection Heq as -> _. congruence.
  - cbn in Heq. injection Heq as -> ->. eauto.
Qed.

Lemma no_write_in (before after l : list Event) ev :
  l = before ++ ev :: after →
  Forall (λ e, is_store_write e = false) l →
  is_store_write ev = true → False.
Proof.
  intros -> Hall Hev. rewrite Forall_app, Forall_cons in Hall.
  destruct Hall as (_ & Hno & _). congruence.
Qed.

(** C2: when the Cloudinary upload of an upload request fails, the
    response is an error, the database is unchanged and no store write is
    attempted; in every run, a store write is preceded by a successful
    upload, and a database that changed had a successful upload before. *)
Theorem failed_upload_writes_nothing kind E req db :
  let run := upload_POST kind E req db in
  (Exists (λ ev, is_upload_failure ev = true) (calls run) →
     (∃ resp, result run = inr resp ∧ is_failure resp = true)
     ∧ db_after run = db
     ∧ row_count kind (db_after run) = row_count kind db
     ∧ Forall (λ ev, is_store_write ev = false) (calls run))
  ∧ (∀ before ev after,
       calls run = before ++ ev :: after →
       is_store_write ev = true →
       Exists (λ ev', is_upload_success ev' = true) before)
  ∧ (db_after run ≠ db →
       Exists (λ ev, is_upload_success ev = true) (calls run)).
Proof.
  cbv zeta.
  destruct (upload_outcome kind E req db)
    as [c Hc | userId file title err resp logs Hacc Hup Hf Hl
        | userId file title up resp logs Hacc Hup Hf Hl
        | userId file title up Hk Hacc Hup Hid Hpub];
    cbv zeta; cbn [result db_after calls].
  - split; [|split].
    + intros H. apply Exists_nil in H. contradiction.
    + intros before ev after Heq. destruct before; discriminate Heq.
    + intros H. now contradiction H.
  - split; [|split].
    + intros _. split; [|split; [|split]]; try reflexivity.
      * eauto using server_failure_is_failure.
      * constructor; [reflexivity | now apply console_not_write].
    + intros before ev after Heq Hev. exfalso.
      eapply no_write_in; [exact Heq | | exact Hev].
      constructor; [reflexivity | now apply console_not_write].
    + intros H. now contradiction H.
  - split; [|split].
    + intros H. exfalso. apply Exists_cons in H as [H|H]; [discriminate H|].
      apply Exists_cons in H as [H|H]; [destruct kind; discriminate H|].
      apply Exists_exists in H as (ev & Hin & Hev).
      rewrite Forall_forall in Hl. apply Hl in Hin.
      destruct ev; discriminate.
    + intros before ev after Heq Hev.
      apply write_position in Heq as (before' & -> & Heq);
        [ | reflexivity | exact Hev ].
      apply Exists_cons_hd. reflexivity.
    + intros H. now contradiction H.
  - split; [|split].
    + intros H. exfalso. apply Exists_cons in H as [H|H]; [discriminate H|].
      apply Exists_cons in H as [H|H]; [discriminate H|].
      apply Exists_nil in H. contradiction.
    + intros before ev after Heq Hev.
      apply write_position in Heq as (before' & -> & Heq);
        [ | reflexivity | exact Hev ].
      apply Exists_cons_hd. reflexivity.
    + intros _. apply Exists_cons_hd. reflexivity.
Qed.

(** The scenario of C2: the provider refuses the upload of a valid video
    request. *)
Lemma failed_upload_example :
  let run :=
    upload_POST RtVideo Scenario.env_upload_fails Scenario.demo_video
      Scenario.library in
  calls run =
    [EUpload (upload_options RtVideo Scenario.env_upload_fails (lit "u1"))
       (Scenario.file "video/mp4" 15728640) (inl Scenario.provider_error);
     EConsoleError "Unexpected error during upload:";
     EConsoleError "Cloudinary error:"]
  ∧ (∃ resp, result run = inr resp ∧ is_failure resp = true)
  ∧ db_after run = Scenario.library
  ∧ row_count RtVideo (db_after run) = row_count RtVideo Scenario.library
  ∧ Forall (λ ev, is_store_write ev = false) (calls run).
Proof.
  cbv zeta. split.
  - vm_compute. reflexivity.
  - apply (failed_upload_writes_nothing RtVideo Scenario.env_upload_fails
             Scenario.demo_video Scenario.library).
    apply Exists_cons_hd. vm_compute. reflexivity.
Defined.

(** ** The order of the checks *)

(** A request that fails a check is answered by the first check that
    fails, before any external call. *)
Lemma validation_order_aux kind E req db c :
  first_failing_check kind req = Some c →
  upload_POST kind E req db = MkRun (inr (check_error req c)) db [].
Proof.
  intros Hc.
  destruct (upload_outcome kind E req db)
    as [c' Hc' | userId file title err resp logs Hacc Hup Hf Hl
        | userId file title up resp logs Hacc Hup Hf Hl
        | userId file title up Hk Hacc Hup Hid Hpub].
  - congruence.
  - destruct Hacc as (Hnone & _). congruence.
  - destruct Hacc as (Hnone & _). congruence.
  - destruct Hacc as (Hnone & _). congruence.
Qed.

(** C5: an upload request is answered with the error of the first check
    that fails, in the order caller, file, title, format, size; nothing is
    uploaded or stored. *)
Theorem validation_order kind E req db c :
  first_failing_check kind req = Some c →
  upload_POST kind E req db = MkRun (inr (check_error req c)) db []
  ∧ ∀ c', check_fails kind req c' = true →
      c' = c ∨ ∃ l1 l2 l3, check_order = l1 ++ c :: l2 ++ c' :: l3.
Proof.
  intros Hc. split; [now apply validation_order_aux|].
  revert Hc. unfold first_failing_check, check_order. cbn [List.find].
  repeat match goal with
         | |- context [if check_fails ?k ?r ?x then _ else _] =>
             destruct (check_fails k r x) eqn:?
         end;
    try discriminate; intros [= <-] c' Hc';
    destruct c'; try congruence; auto; right.
  all: first
    [ by exists [], [], [CheckTitle; CheckFormat; CheckSize]
    | by exists [], [CheckFile], [CheckFormat; CheckSize]
    | by exists [], [CheckFile; CheckTitle], [CheckSize]
    | by exists [], [CheckFile; CheckTitle; CheckFormat], []
    | by exists [CheckCaller], [], [CheckFormat; CheckSize]
    | by exists [CheckCaller], [CheckTitle], [CheckSize]
    | by exists [CheckCaller], [CheckTitle; CheckFormat], []
    | by exists [CheckCaller; CheckFile], [], [CheckSize]
    | by exists [CheckCaller; CheckFile], [CheckFormat], []
    | by exists [CheckCaller; CheckFile; CheckTitle], [], [] ].
Qed.

(** The spec's scenario: an empty title together with a format that is not
    allowed yields the missing-title error. *)
Lemma validation_order_example :
  check_fails RtImage Scenario.gif_without_title CheckTitle = true
  ∧ check_fails RtImage Scenario.gif_without_title CheckFormat = true
  ∧ upload_POST RtImage Scenario.env_ok Scenario.gif_without_title
      Scenario.empty_db
    = MkRun (inr (json (Error TitleRequired) 400)) Scenario.empty_db [].
Proof.
  split; [vm_compute; reflexivity|].
  split; [vm_compute; reflexivity|].
  apply (validation_order RtImage Scenario.env_ok Scenario.gif_without_title
           Scenario.empty_db CheckTitle).
  vm_compute. reflexivity.
Defined.

(** ** The format and size checks *)

Lemma server_failure_not_validation resp :
  is_server_failure resp = true →
  is_invalid_format resp = false ∧ is_too_large resp = false.
Proof.
  unfold is_server_failure, is_invalid_format, is_too_large.
  destruct (body resp) as [[]| | |]; auto; discriminate.
Qed.

(** A request that passes every check is not answered with a validation
    error, and its first external call is the upload. *)
Lemma accepted_run kind E req db :
  first_failing_check kind req = None →
  (∀ resp, result (upload_POST kind E req db) = inr resp →
     is_invalid_format resp = false ∧ is_too_large resp = false)
  ∧ ∃ userId file r rest,
      auth_userId req = Some userId
      ∧ form_file req = Some file
      ∧ calls (upload_POST kind E req db)
          = EUpload (upload_options kind E userId) file r :: rest.
Proof.
  intros Hnone.
  destruct (upload_outcome kind E req db)
    as [c Hc | userId file title err resp logs Hacc Hup Hf Hl
        | userId file title up resp logs Hacc Hup Hf Hl
        | userId file title up Hk Hacc Hup Hid Hpub];
    cbv zeta; cbn [result calls].
  - congruence.
  - split.
    + intros r [= <-]. now apply server_failure_not_validation.
    + destruct Hacc as (_ & Ha & Hfile & _). eauto 10.
  - split.
    + intros r [= <-]. now apply server_failure_not_validation.
    + destruct Hacc as (_ & Ha & Hfile & _). eauto 10.
  - split.
    + intros r [= <-]. split; reflexivity.
    + destruct Hacc as (_ & Ha & Hfile & _). eauto 10.
Qed.

Lemma format_rejected_iff kind file :
  format_rejected kind file = true ↔ file_type file ∉ ALLOWED_FORMATS kind.
Proof.
  unfold format_rejected, Js.includes.
  rewrite negb_true_iff, bool_decide_eq_false. reflexivity.
Qed.

Lemma size_rejected_iff kind file :
  size_rejected kind file = true ↔ file_size file > MAX_FILE_SIZE kind.
Proof.
  unfold size_rejected. rewrite Z.gtb_ltb, Z.ltb_lt. lia.
Qed.

(** The first failing check of a request with a caller, a file and a
    title that is not blank. *)
Lemma first_failing_after_title kind req userId file title :
  auth_userId req = Some userId → userId ≠ [] →
  form_file req = Some file →
  form_title req = Some title → ¬ blank title →
  first_failing_check kind req =
    if format_rejected kind file then Some CheckFormat
    else if size_rejected kind file then Some CheckSize
    else None.
Proof.
  intros Ha Hu Hf Ht Hb.
  rewrite first_failing_check_eq, Ha, Hf, Ht.
  destruct userId as [|u0 u]; [congruence|]. cbn.
  destruct (title_missing (Some title)) eqn:Hm; [|reflexivity].
  apply title_missing_spec in Hm. contradiction.
Qed.

(** C6, as the code has it: for a request of an authenticated caller that
    carries a file and a title that is not blank, the response is the
    invalid-format error exactly when the file's mime type is outside the
    kind's allowed list; when the type is allowed, it is the too-large
    error exactly when the size exceeds the kind's limit; either error is
    returned before anything is uploaded or stored. The allowed lists and
    the limits are those of the claim. *)
Theorem format_and_size_checks kind E req db userId file title :
  auth_userId req = Some userId → userId ≠ [] →
  form_file req = Some file →
  form_title req = Some title → ¬ blank title →
  let run := upload_POST kind E req db in
  ((∃ resp, result run = inr resp ∧ is_invalid_format resp = true)
     ↔ file_type file ∉ ALLOWED_FORMATS kind)
  ∧ (file_type file ∈ ALLOWED_FORMATS kind →
       ((∃ resp, result run = inr resp ∧ is_too_large resp = true)
          ↔ file_size file > MAX_FILE_SIZE kind))
  ∧ (∀ resp, result run = inr resp →
       is_invalid_format resp = true ∨ is_too_large resp = true →
       calls run = [] ∧ db_after run = db)
  ∧ ALLOWED_FORMATS RtImage
      = [lit "image/jpeg"; lit "image/png"; lit "image/webp"]
  ∧ ALLOWED_FORMATS RtVideo
      = [lit "video/mp4"; lit "video/mpeg"; lit "video/quicktime";
         lit "video/x-msvideo"; lit "video/webm"; lit "video/x-matroska"]
  ∧ MAX_FILE_SIZE RtImage = 10 * 1024 * 1024
  ∧ MAX_FILE_SIZE RtVideo = 20 * 1024 * 1024.
Proof.
  intros Ha Hu Hf Ht Hb. cbv zeta.
  pose proof (first_failing_after_title kind req userId file title Ha Hu Hf Ht Hb)
    as Hfirst.
  pose proof (format_rejected_iff kind file) as Hfmt.
  pose proof (size_rejected_iff kind file) as Hsize.
  assert (Hfile_type : check_error req CheckFormat
                       = json (Error (InvalidFileFormat (file_type file))) 400)
    by (unfold check_error; now rewrite Hf).
  assert (Hfile_size : check_error req CheckSize
                       = json (Error (FileSizeExceedsLimit (file_size file))) 400)
    by (unfold check_error; now rewrite Hf).
  repeat match goal with |- _ ∧ _ => split end; try reflexivity.
  - destruct (format_rejected kind file) eqn:Hfr.
    + rewrite (validation_order_aux kind E req db CheckFormat Hfirst), Hfile_type.
      cbn [result]. split; [intros _; now apply Hfmt | eauto].
    + split; [| intros Hn; apply Hfmt in Hn; discriminate].
      intros (resp & Hr & Hi). exfalso.
      destruct (size_rejected kind file) eqn:Hsr.
      * rewrite (validation_order_aux kind E req db CheckSize Hfirst), Hfile_size
          in Hr.
        cbn [result] in Hr. injection Hr as <-. discriminate.
      * apply (accepted_run kind E req db Hfirst) in Hr as [Hr _]. congruence.
  - intros Hin.
    destruct (format_rejected kind file) eqn:Hfr;
      [ exfalso; now apply Hfmt |].
    destruct (size_rejected kind file) eqn:Hsr.
    + rewrite (validation_order_aux kind E req db CheckSize Hfirst), Hfile_size.
      cbn [result]. split; [intros _; now apply Hsize | eauto].
    + split; [| intros Hn; apply Hsize in Hn; discriminate].
      intros (resp & Hr & Hi). exfalso.
      apply (accepted_run kind E req db Hfirst) in Hr as [_ Hr]. congruence.
  - intros resp Hr Hv.
    destruct (format_rejected kind file) eqn:Hfr.
    { rewrite (validation_order_aux kind E req db CheckFormat Hfirst).
      split; reflexivity. }
    destruct (size_rejected kind file) eqn:Hsr.
    { rewrite (validation_order_aux kind E req db CheckSize Hfirst).
      split; reflexivity. }
    exfalso. apply (accepted_run kind E req db Hfirst) in Hr as [H1 H2].
    destruct Hv; congruence.
Qed.

(** C6 as the claim states it fails on two requests of the caller "u1" to
    the image route: a gif with an empty title is answered with the
    missing-title error although its type is outside the allowed list, and
    a gif of 11 MiB is answered with the invalid-format error although its
    size exceeds the limit. *)
Lemma format_and_size_errors_depend_on_earlier_checks :
  ((lit "image/gif" ∉ ALLOWED_FORMATS RtImage)
   ∧ form_file Scenario.gif_without_title = Some (Scenario.file "image/gif" 2048)
   ∧ result (upload_POST RtImage Scenario.env_ok Scenario.gif_without_title
               Scenario.empty_db)
       = inr (json (Error TitleRequired) 400))
  ∧ (11534336 > MAX_FILE_SIZE RtImage
     ∧ form_file Scenario.big_gif = Some (Scenario.file "image/gif" 11534336)
     ∧ result (upload_POST RtImage Scenario.env_ok Scenario.big_gif
                 Scenario.empty_db)
         = inr (json (Error (InvalidFileFormat (lit "image/gif"))) 400)).
Proof.
  split; split.
  - intros H. vm_compute in H.
    repeat (apply elem_of_cons in H as [H|H]; [discriminate H|]).
    apply elem_of_nil in H. exact H.
  - split; vm_compute; reflexivity.
  - reflexivity.
  - split; vm_compute; reflexivity.
Qed.

(** A gif with a title, sent by "u1": rejected for its format, nothing
    uploaded or stored. *)
Lemma format_and_size_checks_example :
  let req := Scenario.request "image/gif" 2048 "pic" None in
  let run := upload_POST RtImage Scenario.env_ok req Scenario.empty_db in
  (auth_userId req = Some (lit "u1") ∧ lit "u1" ≠ []
   ∧ form_file req = Some (Scenario.file "image/gif" 2048)
   ∧ form_title req = Some (lit "pic") ∧ ¬ blank (lit "pic"))
  ∧ ((∃ resp, result run = inr resp ∧ is_invalid_format resp = true)
       ↔ lit "image/gif" ∉ ALLOWED_FORMATS RtImage)
  ∧ result run = inr (json (Error (InvalidFileFormat (lit "image/gif"))) 400)
  ∧ calls run = [] ∧ db_after run = Scenario.empty_db.
Proof.
  cbv zeta.
  assert (Hb : ¬ blank (lit "pic")).
  { intros H. apply trim_nil_iff in H. vm_compute in H. discriminate H. }
  assert (Hu : lit "u1" ≠ []) by (vm_compute; discriminate).
  pose proof (format_and_size_checks RtImage Scenario.env_ok
                (Scenario.request "image/gif" 2048 "pic" None) Scenario.empty_db
                (lit "u1") (Scenario.file "image/gif" 2048) (lit "pic")
                eq_refl Hu eq_refl eq_refl Hb) as (H1 & _ & H3 & _).
  split; [repeat split; assumption|].
  split; [exact H1|].
  split; [vm_compute; reflexivity|].
  apply (H3 (json (Error (InvalidFileFormat (lit "image/gif"))) 400)).
  - vm_compute. reflexivity.
  - left. reflexivity.
Defined.

(** ** The size limit *)

(** C9: a file whose size is at most the kind's limit is never answered
    with the too-large error, so the error is returned only for sizes
    strictly greater than the limit; at exactly the limit (10485760 bytes
    for images, 20971520 for videos) a request that passes the other
    checks goes on to the upload. *)
Theorem size_limit_is_inclusive kind E req db file :
  form_file req = Some file →
  file_size file = MAX_FILE_SIZE kind →
  let run := upload_POST kind E req db in
  size_rejected kind file = false
  ∧ (∀ resp, result run = inr resp → is_too_large resp = false)
  ∧ (unauthenticated (auth_userId req) = false →
     title_missing (form_title req) = false →
     format_rejected kind file = false →
     ∃ userId r rest,
       calls run = EUpload (upload_options kind E userId) file r :: rest)
  ∧ (∀ req' file' resp,
       form_file req' = Some file' →
       result (upload_POST kind E req' db) = inr resp →
       is_too_large resp = true →
       file_size file' > MAX_FILE_SIZE kind)
  ∧ MAX_FILE_SIZE RtImage = 10485760
  ∧ MAX_FILE_SIZE RtVideo = 20971520.
Proof.
  intros Hf Hsize. cbv zeta.
  assert (Hsr : size_rejected kind file = false).
  { destruct (size_rejected kind file) eqn:H; [|reflexivity].
    apply size_rejected_iff in H. lia. }
  assert (Honly : ∀ req' file' resp,
             form_file req' = Some file' →
             result (upload_POST kind E req' db) = inr resp →
             is_too_large resp = true →
             size_rejected kind file' = true).
  { intros req' file' resp Hf' Hr Ht.
    destruct (first_failing_check kind req') as [c|] eqn:Hc.
    - rewrite (validation_order_aux kind E req' db c Hc) in Hr.
      cbn [result] in Hr. injection Hr as <-.
      destruct c; try discriminate Ht.
      rewrite first_failing_check_eq, Hf' in Hc.
      destruct (unauthenticated _); [discriminate|].
      destruct (title_missing _); [discriminate|].
      destruct (format_rejected kind file'); [discriminate|].
      destruct (size_rejected kind file'); [reflexivity|discriminate].
    - apply (accepted_run kind E req' db Hc) in Hr as [_ Hr]. congruence. }
  split; [exact Hsr|]. split; [|split; [|split; [|split; reflexivity]]].
  - intros resp Hr.
    destruct (is_too_large resp) eqn:Ht; [|reflexivity].
    rewrite (Honly req file resp Hf Hr Ht) in Hsr. discriminate.
  - intros Hauth Htitle Hfmt.
    assert (Hnone : first_failing_check kind req = None).
    { rewrite first_failing_check_eq, Hf, Hauth, Htitle, Hfmt, Hsr.
      reflexivity. }
    destruct (accepted_run kind E req db Hnone)
      as (_ & userId & file' & r & rest & _ & Hf' & Hcalls).
    rewrite Hf in Hf'. injection Hf' as <-. eauto.
  - intros req' file' resp Hf' Hr Ht.
    apply size_rejected_iff. eauto.
Qed.

(** A png of exactly 10 MiB is uploaded. *)
Lemma size_limit_example :
  (form_file Scenario.png_at_limit = Some (Scenario.file "image/png" 10485760)
   ∧ file_size (Scenario.file "image/png" 10485760) = MAX_FILE_SIZE RtImage)
  ∧ (∀ resp,
       result (upload_POST RtImage Scenario.env_ok Scenario.png_at_limit
                 Scenario.empty_db) = inr resp →
       is_too_large resp = false)
  ∧ ∃ userId r rest,
      calls (upload_POST RtImage Scenario.env_ok Scenario.png_at_limit
               Scenario.empty_db)
        = EUpload (upload_options RtImage Scenario.env_ok userId)
            (Scenario.file "image/png" 10485760) r :: rest.
Proof.
  pose proof (size_limit_is_inclusive RtImage Scenario.env_ok
                Scenario.png_at_limit Scenario.empty_db
                (Scenario.file "image/png" 10485760) eq_refl eq_refl)
    as (_ & H2 & H3 & _).
  split; [split; reflexivity|]. split; [exact H2|].
  apply H3; vm_compute; reflexivity.
Defined.

(** ** The stored video record *)

Lemma or_int_spec (a : option Z) (b : Z) :
  Js.or_int a b =
    match a with
    | Some n => if decide (n = 0) then b else n
    | None => b
    end.
Proof.
  unfold Js.or_int, Js.truthy_int. destruct a as [n|]; [|reflexivity].
  destruct (decide (n = 0)) as [->|Hn]; [reflexivity|].
  apply Z.eqb_neq in Hn. now rewrite Hn.
Qed.

Lemma or_number_spec (a : option number) (b : number) :
  Js.or_number a b =
    match a with
    | Some q => if decide (QArith_base.Qnum q = 0) then b else q
    | None => b
    end.
Proof.
  unfold Js.or_number, Js.truthy_number. destruct a as [q|]; [|reflexivity].
  destruct (decide (QArith_base.Qnum q = 0)) as [Hq|Hq].
  - now rewrite Hq.
  - apply Z.eqb_neq in Hq. now rewrite Hq.
Qed.

(** C7, as the code has it: a successful video upload stores one new row
    whose title is the trimmed title, whose description is the trimmed
    description or null, whose publicId is the one the provider returned,
    whose owner is the caller, whose originalSize is the file's size, whose
    compressedSize is the size the provider reported when that is present
    and not zero and the file's size otherwise, and whose duration is the
    one the provider reported when that is present and not zero and 0
    otherwise. *)
Theorem video_record_fields E req db v s :
  result (VideoUpload.POST E req db) = inr (json (VideoUploaded v) s) →
  ∃ userId file title up row,
    auth_userId req = Some userId
    ∧ form_file req = Some file
    ∧ form_title req = Some title
    ∧ cloud_upload E (upload_options RtVideo E userId) file = inr up
    ∧ videos db !! new_row_id E = None
    ∧ db_after (VideoUpload.POST E req db)
        = {| videos := <[new_row_id E := row]> (videos db);
             images := images db |}
    ∧ v_title row = Js.trim title
    ∧ v_description row =
        match form_description req with
        | Some d => if decide (blank d) then None else Some (Js.trim d)
        | None => None
        end
    ∧ v_publicId row = res_public_id up
    ∧ v_userId row = userId
    ∧ v_originalSize row = file_size file
    ∧ v_compressedSize row =
        match res_bytes up with
        | Some b => if decide (b = 0) then file_size file else b
        | None => file_size file
        end
    ∧ v_duration row =
        match res_duration up with
        | Some d =>
            if decide (QArith_base.Qnum d = 0) then QArith_base.Qmake 0 1 else d
        | None => QArith_base.Qmake 0 1
        end.
Proof.
  intros Hok.
  destruct (video_success_inv E req db v s Hok)
    as (userId & file & title & up & Hacc & Hup & Hid & Hpub & Hrun).
  destruct Hacc as (_ & Ha & Hf & Ht).
  exists userId, file, title, up. eexists.
  rewrite Hrun. cbv zeta. cbn [db_after].
  repeat match goal with |- _ ∧ _ => split end;
    try eassumption; try reflexivity;
    cbn [Prisma.video_row VideoUpload.create_data v_description
         v_compressedSize v_duration vd_description vd_compressedSize
         vd_duration].
  - apply trim_or_null_spec.
  - apply or_int_spec.
  - apply or_number_spec.
Qed.

(** C7 as the claim states it fails when the provider reports 0 bytes: the
    row's compressedSize is the file's 15728640 bytes, not the reported
    size. *)
Lemma zero_bytes_are_not_stored :
  let run :=
    VideoUpload.POST Scenario.env_zero_bytes Scenario.demo_video
      Scenario.empty_db in
  ∃ up row,
    cloud_upload Scenario.env_zero_bytes
      (upload_options RtVideo Scenario.env_zero_bytes (lit "u1"))
      (Scenario.file "video/mp4" 15728640) = inr up
    ∧ res_bytes up = Some 0
    ∧ (∃ v, result run = inr (json (VideoUploaded v) 201))
    ∧ videos (db_after run) !! lit "row-1" = Some row
    ∧ v_compressedSize row = 15728640
    ∧ Some (v_compressedSize row) ≠ res_bytes up.
Proof.
  cbv zeta. do 2 eexists.
  split; [vm_compute; reflexivity|].
  split; [reflexivity|].
  split; [eexists; vm_compute; reflexivity|].
  split; [vm_compute; reflexivity|].
  split; [reflexivity | discriminate].
Qed.

(** The spec's scenario: a 15 MiB mp4 titled "demo", stored by the
    provider as "videos/u1/123-abc" with 6000000 bytes and duration 42.5. *)
Lemma video_record_fields_example :
  ∃ v row,
    result (VideoUpload.POST Scenario.env_ok Scenario.demo_video
              Scenario.empty_db) = inr (json (VideoUploaded v) 201)
    ∧ db_after (VideoUpload.POST Scenario.env_ok Scenario.demo_video
                  Scenario.empty_db)
        = {| videos := <[lit "row-1" := row]> ∅; images := ∅ |}
    ∧ v_title row = lit "demo"
    ∧ v_description row = None
    ∧ v_publicId row = lit "videos/u1/123-abc"
    ∧ v_userId row = lit "u1"
    ∧ v_originalSize row = 15728640
    ∧ v_compressedSize row = 6000000
    ∧ v_duration row = QArith_base.Qmake 85 2.
Proof.
  assert (Hok : ∃ v,
             result (VideoUpload.POST Scenario.env_ok Scenario.demo_video
                       Scenario.empty_db) = inr (json (VideoUploaded v) 201))
    by (eexists; vm_compute; reflexivity).
  destruct Hok as [v Hok]. exists v.
  destruct (video_record_fields Scenario.env_ok Scenario.demo_video
              Scenario.empty_db v 201 Hok)
    as (userId & file & title & up & row & Ha & Hf & Ht & Hup & Hid & Hdb
        & H1 & H2 & H3 & H4 & H5 & H6 & H7).
  exists row.
  injection Ha as <-. injection Hf as <-. injection Ht as <-.
  vm_compute in Hup. injection Hup as <-.
  split; [exact Hok|]. split; [exact Hdb|].
  split; [rewrite H1; vm_compute; reflexivity|].
  split; [exact H2|].
  split; [rewrite H3; vm_compute; reflexivity|].
  split; [rewrite H4; vm_compute; reflexivity|].
  split; [exact H5|].
  split; [exact H6 | exact H7].
Defined.

(** ** Zero and blank values *)

(** C10: after a successful video upload for which the provider reported
    0 bytes, the stored compressedSize is the file's size; a description
    that is empty or white space only is stored as null (and returned as
    null); the image route likewise hands null to its create call for such
    a description. *)
Theorem zero_bytes_and_blank_description :
  (∀ E req db v s,
     result (VideoUpload.POST E req db) = inr (json (VideoUploaded v) s) →
     ∃ userId file up row,
       auth_userId req = Some userId
       ∧ form_file req = Some file
       ∧ cloud_upload E (upload_options RtVideo E userId) file = inr up
       ∧ videos (db_after (VideoUpload.POST E req db)) !! new_row_id E = Some row
       ∧ (res_bytes up = Some 0 → v_compressedSize row = file_size file)
       ∧ (∀ d, form_description req = Some d → blank d →
            v_description row = None ∧ vj_description v = None))
  ∧ (∀ E req db data,
       EImageCreate data ∈ calls (ImageUpload.POST E req db) →
       ∀ d, form_description req = Some d → blank d →
            id_description data = None).
Proof.
  split.
  - intros E req db v s Hok.
    destruct (video_success_inv E req db v s Hok)
      as (userId & file & title & up & Hacc & Hup & Hid & Hpub & Hrun).
    destruct Hacc as (_ & Ha & Hf & Ht).
    exists userId, file, up. eexists.
    rewrite Hrun in Hok |- *. cbv zeta in Hok |- *.
    cbn [db_after videos result] in Hok |- *.
    split; [exact Ha|]. split; [exact Hf|]. split; [exact Hup|].
    split; [apply lookup_insert_eq|].
    cbn [Prisma.video_row VideoUpload.create_data v_description
         v_compressedSize vd_description vd_compressedSize].
    split.
    + intros ->. reflexivity.
    + intros d Hd Hb.
      assert (Hnull : Js.trim_or_null (form_description req) = None).
      { rewrite trim_or_null_spec, Hd. now rewrite decide_True. }
      split; [exact Hnull|].
      injection Hok as <- _. cbn. exact Hnull.
  - intros E req db data Hin d Hd Hb.
    destruct (image_outcome E req db)
      as [c Hc | userId file title err resp logs Hacc Hup Hf Hl
          | userId file title up resp logs Hacc Hup Hf Hl
          | userId file title up Hk Hacc Hup Hid Hpub];
      cbn [calls] in Hin; [ | | | discriminate Hk].
    + apply elem_of_nil in Hin. contradiction.
    + apply elem_of_cons in Hin as [Hin|Hin]; [discriminate|].
      rewrite Forall_forall in Hl. apply Hl in Hin. discriminate.
    + apply elem_of_cons in Hin as [Hin|Hin]; [discriminate|].
      apply elem_of_cons in Hin as [Hin|Hin].
      * injection Hin as ->. cbn.
        rewrite trim_or_null_spec, Hd. now rewrite decide_True.
      * rewrite Forall_forall in Hl. apply Hl in Hin. discriminate.
Qed.

(** A 15 MiB mp4 with a description of three spaces, for which the
    provider reports 0 bytes. *)
Lemma zero_bytes_and_blank_description_example :
  ∃ row,
    videos (db_after (VideoUpload.POST Scenario.env_zero_bytes
                        Scenario.demo_video_blank_description
                        Scenario.empty_db)) !! lit "row-1" = Some row
    ∧ v_compressedSize row = 15728640
    ∧ v_description row = None.
Proof.
  assert (Hok : ∃ v,
             result (VideoUpload.POST Scenario.env_zero_bytes
                       Scenario.demo_video_blank_description
                       Scenario.empty_db) = inr (json (VideoUploaded v) 201))
    by (eexists; vm_compute; reflexivity).
  destruct Hok as [v Hok].
  destruct (proj1 zero_bytes_and_blank_description Scenario.env_zero_bytes
              Scenario.demo_video_blank_description Scenario.empty_db v 201 Hok)
    as (userId & file & up & row & Ha & Hf & Hup & Hrow & Hz & Hd).
  exists row. split; [exact Hrow|].
  injection Ha as <-. injection Hf as <-.
  vm_compute in Hup. injection Hup as <-.
  split.
  - rewrite (Hz eq_refl). reflexivity.
  - apply (Hd (lit "   ")); [reflexivity|].
    apply trim_nil_iff. vm_compute. reflexivity.
Defined.

(** ** Deleting *)

(** Runs the delete handlers' calls in the goal. *)
Ltac run_delete :=
  unfold Prisma.video_findUnique, Prisma.image_findUnique,
    Prisma.video_delete, Prisma.image_delete;
  run_monad.

(** A delete by the owner: the handler looks the row up, asks Cloudinary
    to destroy the asset, logs a failure of that call, deletes the row and
    answers 200. *)
Lemma owner_delete_run kind E req db userId publicId :
  del_userId req = Some userId → userId ≠ [] →
  owner_of kind db (del_id req) = Some userId →
  publicId_of kind db (del_id req) = Some publicId →
  media_DELETE kind E req db =
    MkRun (inr (json DeletedSuccessfully 200))
      (without_row kind (del_id req) db)
      (find_event kind (del_id req)
         :: EDestroy publicId kind (cloud_destroy E publicId kind)
         :: match cloud_destroy E publicId kind with
            | Some _ => [EConsoleError "Cloudinary deletion failed:"]
            | None => []
            end
         ++ [delete_event kind (del_id req)]).
Proof.
  destruct req as [caller id]. cbn [del_userId del_id].
  intros -> Hu Hown Hpub.
  destruct userId as [|u0 u]; [congruence|].
  destruct kind; cbn [owner_of publicId_of] in Hown, Hpub;
    cbn [media_DELETE without_row find_event delete_event].
  - unfold VideoId.DELETE. cbn [del_userId del_id].
    destruct (videos db !! id) as [row|] eqn:Hrow; [|discriminate].
    cbn in Hown, Hpub. injection Hown as Hown. injection Hpub as Hpub.
    run_delete. rewrite Hrow. cbv beta iota.
    rewrite Hown, bool_decide_eq_true_2 by reflexivity. cbn [negb].
    rewrite Hpub.
    destruct (cloud_destroy E publicId RtVideo); cbv beta iota;
      rewrite Hrow; reflexivity.
  - unfold ImageId.DELETE. cbn [del_userId del_id].
    destruct (images db !! id) as [row|] eqn:Hrow; [|discriminate].
    cbn in Hown, Hpub. injection Hown as Hown. injection Hpub as Hpub.
    run_delete. rewrite Hrow. cbv beta iota.
    rewrite Hown, bool_decide_eq_true_2 by reflexivity. cbn [negb].
    rewrite Hpub.
    destruct (cloud_destroy E publicId RtImage); cbv beta iota;
      rewrite Hrow; reflexivity.
Qed.

Lemma without_row_lookup kind id db : owner_of kind (without_row kind id db) id = None.
Proof.
  destruct kind; cbn [owner_of without_row videos images];
    now rewrite lookup_delete_eq.
Qed.

(** C3: when the owner deletes a record and the Cloudinary destroy call
    fails, the failure is logged and goes no further: the row is deleted
    from its table and the response is the 200 success message. *)
Theorem destroy_failure_is_swallowed kind E req db userId publicId err :
  del_userId req = Some userId → userId ≠ [] →
  owner_of kind db (del_id req) = Some userId →
  publicId_of kind db (del_id req) = Some publicId →
  cloud_destroy E publicId kind = Some err →
  let run := media_DELETE kind E req db in
  result run = inr (json DeletedSuccessfully 200)
  ∧ db_after run = without_row kind (del_id req) db
  ∧ owner_of kind (db_after run) (del_id req) = None
  ∧ calls run =
      [find_event kind (del_id req);
       EDestroy publicId kind (Some err);
       EConsoleError "Cloudinary deletion failed:";
       delete_event kind (del_id req)].
Proof.
  intros Ha Hu Hown Hpub Herr. cbv zeta.
  rewrite (owner_delete_run kind E req db userId publicId Ha Hu Hown Hpub).
  cbn [result db_after calls]. rewrite Herr.
  repeat split. apply without_row_lookup.
Qed.

(** "u1" deletes the video "v1" while Cloudinary answers 502. *)
Lemma destroy_failure_example :
  let req := Scenario.delete_by "u1" "v1" in
  let run := media_DELETE RtVideo Scenario.env_destroy_fails req Scenario.library in
  owner_of RtVideo Scenario.library (lit "v1") = Some (lit "u1")
  ∧ result run = inr (json DeletedSuccessfully 200)
  ∧ db_after run = without_row RtVideo (lit "v1") Scenario.library
  ∧ owner_of RtVideo (db_after run) (lit "v1") = None
  ∧ calls run =
      [EVideoFindUnique (lit "v1");
       EDestroy (lit "videos/u1/123-abc") RtVideo (Some Scenario.provider_error);
       EConsoleError "Cloudinary deletion failed:";
       EVideoDelete (lit "v1")].
Proof.
  cbv zeta. split; [vm_compute; reflexivity|].
  apply (destroy_failure_is_swallowed RtVideo Scenario.env_destroy_fails
           (Scenario.delete_by "u1" "v1") Scenario.library (lit "u1")
           (lit "videos/u1/123-abc") Scenario.provider_error).
  - reflexivity.
  - vm_compute. discriminate.
  - vm_compute. reflexivity.
  - vm_compute. reflexivity.
  - reflexivity.
Defined.

(** C4: when the record exists and its owner is not the caller, the
    response is 403 Forbidden, the only call made is the lookup (so no
    destroy), and the database is unchanged. *)
Theorem foreign_delete_is_forbidden kind E req db userId owner :
  del_userId req = Some userId → userId ≠ [] →
  owner_of kind db (del_id req) = Some owner →
  owner ≠ userId →
  let run := media_DELETE kind E req db in
  result run = inr (json (Error Forbidden) 403)
  ∧ db_after run = db
  ∧ row_count kind (db_after run) = row_count kind db
  ∧ owner_of kind (db_after run) (del_id req) = Some owner
  ∧ calls run = [find_event kind (del_id req)]
  ∧ Forall (λ ev, is_destroy ev = false) (calls run).
Proof.
  destruct req as [caller id]. cbn [del_userId del_id].
  intros -> Hu Hown Hne. cbv zeta.
  destruct userId as [|u0 u]; [congruence|].
  assert (Hrun : media_DELETE kind E {| del_userId := Some (u0 :: u); del_id := id |} db
                 = MkRun (inr (json (Error Forbidden) 403)) db [find_event kind id]).
  { destruct kind; cbn [owner_of] in Hown; cbn [media_DELETE find_event].
    - unfold VideoId.DELETE. cbn [del_userId del_id].
      destruct (videos db !! id) as [row|] eqn:Hrow; [|discriminate].
      cbn in Hown. injection Hown as Hown.
      run_delete. rewrite Hrow. cbv beta iota.
      rewrite Hown, bool_decide_eq_false_2 by exact Hne. reflexivity.
    - unfold ImageId.DELETE. cbn [del_userId del_id].
      destruct (images db !! id) as [row|] eqn:Hrow; [|discriminate].
      cbn in Hown. injection Hown as Hown.
      run_delete. rewrite Hrow. cbv beta iota.
      rewrite Hown, bool_decide_eq_false_2 by exact Hne. reflexivity. }
  rewrite Hrun. cbn [result db_after calls].
  repeat split; try assumption.
  constructor; [destruct kind; reflexivity | constructor].
Qed.

(** The spec's scenario: "u2" tries to delete the video "v1" of "u1". *)
Lemma foreign_delete_example :
  let req := Scenario.delete_by "u2" "v1" in
  let run := media_DELETE RtVideo Scenario.env_ok req Scenario.library in
  owner_of RtVideo Scenario.library (lit "v1") = Some (lit "u1")
  ∧ result run = inr (json (Error Forbidden) 403)
  ∧ db_after run = Scenario.library
  ∧ row_count RtVideo (db_after run) = row_count RtVideo Scenario.library
  ∧ owner_of RtVideo (db_after run) (lit "v1") = Some (lit "u1")
  ∧ calls run = [EVideoFindUnique (lit "v1")]
  ∧ Forall (λ ev, is_destroy ev = false) (calls run).
Proof.
  cbv zeta. split; [vm_compute; reflexivity|].
  apply (foreign_delete_is_forbidden RtVideo Scenario.env_ok
           (Scenario.delete_by "u2" "v1") Scenario.library (lit "u2") (lit "u1")).
  - reflexivity.
  - vm_compute. discriminate.
  - vm_compute. reflexivity.
  - vm_compute. discriminate.
Defined.

(** ** Listing *)

#[global] Instance newer_first_total : Total newer_first.
Proof. intros a b. unfold newer_first. lia. Qed.

#[global] Instance newer_first_trans : Transitive newer_first.
Proof. intros a b c. unfold newer_first. lia. Qed.

Lemma elem_of_records kind db r : r ∈ records kind db ↔ stored kind db r.
Proof.
  destruct kind; unfold records, stored.
  - rewrite list_elem_of_fmap. split.
    + intros (row & -> & Hrow).
      apply list_elem_of_fmap in Hrow as ([id row'] & -> & Hin).
      apply elem_of_map_to_list in Hin. eauto.
    + destruct r as [row|row]; [|contradiction].
      intros [id Hid]. exists row. split; [reflexivity|].
      apply list_elem_of_fmap. exists (id, row). split; [reflexivity|].
      now apply elem_of_map_to_list.
  - rewrite list_elem_of_fmap. split.
    + intros (row & -> & Hrow).
      apply list_elem_of_fmap in Hrow as ([id row'] & -> & Hin).
      apply elem_of_map_to_list in Hin. eauto.
    + destruct r as [row|row]; [contradiction|].
      intros [id Hid]. exists row. split; [reflexivity|].
      apply list_elem_of_fmap. exists (id, row). split; [reflexivity|].
      now apply elem_of_map_to_list.
Qed.

(** C8: the listing for an owner and a kind returns exactly the stored
    records of that kind whose owner is the queried one, whatever other
    owners' records the store holds, and returns them newest first. *)
Theorem listByOwner_only_own_records owner kind db :
  Forall (λ r, ownerId r = owner) (listByOwner owner kind db)
  ∧ (∀ r, r ∈ listByOwner owner kind db ↔ stored kind db r ∧ ownerId r = owner)
  ∧ StronglySorted (λ a b, createdAt b ≤ createdAt a) (listByOwner owner kind db).
Proof.
  assert (Hmem : ∀ r, r ∈ listByOwner owner kind db
                      ↔ stored kind db r ∧ ownerId r = owner).
  { intros r. unfold listByOwner.
    rewrite merge_sort_Permutation, list_elem_of_filter, elem_of_records.
    tauto. }
  split; [|split].
  - apply Forall_forall. intros r Hr. now apply Hmem in Hr.
  - exact Hmem.
  - unfold listByOwner.
    apply (StronglySorted_merge_sort newer_first); apply _.
Qed.

(** A library with two videos of "u1" and one of "u2": the listing for
    "u1" is the newer video, then the older one. *)
Lemma listByOwner_example :
  listByOwner (lit "u1") RtVideo Scenario.shared_library
  = [VideoRecord Scenario.newer_video_of_u1; VideoRecord Scenario.video_of_u1]
  ∧ stored RtVideo Scenario.shared_library (VideoRecord Scenario.video_of_u2)
  ∧ VideoRecord Scenario.video_of_u2
      ∉ listByOwner (lit "u1") RtVideo Scenario.shared_library.
Proof.
  split; [vm_compute; reflexivity|].
  split; [exists (lit "v2"); vm_compute; reflexivity|].
  intros Hin.
  pose proof (listByOwner_only_own_records (lit "u1") RtVideo
                Scenario.shared_library) as (Hall & _ & _).
  rewrite Forall_forall in Hall. apply Hall in Hin as Hown.
  vm_compute in Hown. discriminate Hown.
Defined.

(** * Further properties of the route handlers *)

(** ** The runs of the delete handlers *)

(** Every run of a delete handler, by the session, the row and its
    owner. *)
Lemma delete_run kind E req db :
  media_DELETE kind E req db =
    match del_userId req with
    | None | Some [] => MkRun (inr (json (Error Unauthorized) 401)) db []
    | Some userId =>
        match owner_of kind db (del_id req), publicId_of kind db (del_id req) with
        | Some owner, Some publicId =>
            if decide (owner = userId) then
              MkRun (inr (json DeletedSuccessfully 200))
                (without_row kind (del_id req) db)
                (find_event kind (del_id req)
                   :: EDestroy publicId kind (cloud_destroy E publicId kind)
                   :: match cloud_destroy E publicId kind with
                      | Some _ => [EConsoleError "Cloudinary deletion failed:"]
                      | None => []
                      end
                   ++ [delete_event kind (del_id req)])
            else
              MkRun (inr (json (Error Forbidden) 403)) db
                [find_event kind (del_id req)]
        | _, _ =>
            MkRun (inr (json (Error NotFound) 404)) db
              [find_event kind (del_id req)]
        end
    end.
Proof.
  destruct (del_userId req) as [[|u0 u]|] eqn:Ha.
  - destruct req as [caller id]. cbn in Ha. subst caller.
    destruct kind; reflexivity.
  - destruct (owner_of kind db (del_id req)) as [owner|] eqn:Hown.
    + destruct (publicId_of kind db (del_id req)) as [publicId|] eqn:Hpub.
      * destruct (decide (owner = u0 :: u)) as [->|Hne].
        -- apply (owner_delete_run kind E req db (u0 :: u) publicId);
             [assumption | discriminate | assumption | assumption].
        -- destruct req as [caller id]. cbn [del_userId del_id] in *.
           subst caller.
           destruct kind; cbn [owner_of] in Hown;
             cbn [media_DELETE find_event].
           ++ unfold VideoId.DELETE. cbn [del_userId del_id].
              destruct (videos db !! id) as [row|] eqn:Hrow; [|discriminate].
              cbn in Hown. injection Hown as Hown.
              run_delete. rewrite Hrow. cbv beta iota.
              rewrite Hown, bool_decide_eq_false_2 by exact Hne. reflexivity.
           ++ unfold ImageId.DELETE. cbn [del_userId del_id].
              destruct (images db !! id) as [row|] eqn:Hrow; [|discriminate].
              cbn in Hown. injection Hown as Hown.
              run_delete. rewrite Hrow. cbv beta iota.
              rewrite Hown, bool_decide_eq_false_2 by exact Hne. reflexivity.
      * exfalso. destruct kind; cbn in Hown, Hpub.
        -- destruct (videos db !! del_id req); discriminate.
        -- destruct (images db !! del_id req); discriminate.
    + destruct req as [caller id]. cbn [del_userId del_id] in *.
      subst caller.
      destruct kind; cbn [owner_of] in Hown; cbn [media_DELETE find_event].
      * unfold VideoId.DELETE. cbn [del_userId del_id].
        destruct (videos db !! id) as [row|] eqn:Hrow; [discriminate|].
        run_delete. rewrite Hrow. reflexivity.
      * unfold ImageId.DELETE. cbn [del_userId del_id].
        destruct (images db !! id) as [row|] eqn:Hrow; [discriminate|].
        run_delete. rewrite Hrow. reflexivity.
  - destruct req as [caller id]. cbn in Ha. subst caller.
    destruct kind; reflexivity.
Qed.

(** A delete request without a session is answered 401 before anything
    is looked up; with a session but no row under the id it is answered
    404 after the lookup alone. Neither touches Cloudinary or the
    database. *)
Theorem delete_without_session_or_record kind E req db :
  (unauthenticated (del_userId req) = true →
     media_DELETE kind E req db
       = MkRun (inr (json (Error Unauthorized) 401)) db [])
  ∧ (unauthenticated (del_userId req) = false →
     owner_of kind db (del_id req) = None →
     media_DELETE kind E req db
       = MkRun (inr (json (Error NotFound) 404)) db
           [find_event kind (del_id req)]).
Proof.
  rewrite delete_run. unfold unauthenticated.
  destruct (del_userId req) as [[|u0 u]|]; cbn; split;
    try reflexivity; try discriminate.
  intros _ ->. reflexivity.
Qed.

Lemma delete_missing_example :
  media_DELETE RtImage Scenario.env_ok (Scenario.delete_by "u1" "nope")
    Scenario.library
  = MkRun (inr (json (Error NotFound) 404)) Scenario.library
      [EImageFindUnique (lit "nope")].
Proof.
  apply (delete_without_session_or_record RtImage Scenario.env_ok
           (Scenario.delete_by "u1" "nope") Scenario.library);
    vm_compute; reflexivity.
Defined.

(** A delete request removes at most the row it names, and only for its
    owner: every other row of the table and the whole other table are as
    before, and if the named row is gone afterwards, the caller was its
    owner and the answer is the 200 success message. *)
Theorem delete_touches_only_the_owners_row kind E req db :
  let run := media_DELETE kind E req db in
  (db_after run = db ∨ db_after run = without_row kind (del_id req) db)
  ∧ (∀ id, id ≠ del_id req →
       videos (db_after run) !! id = videos db !! id
       ∧ images (db_after run) !! id = images db !! id)
  ∧ (∀ id other, other ≠ kind →
       owner_of other (db_after run) id = owner_of other db id
       ∧ publicId_of other (db_after run) id = publicId_of other db id)
  ∧ (∀ owner,
       owner_of kind db (del_id req) = Some owner →
       owner_of kind (db_after run) (del_id req) = None →
       del_userId req = Some owner
       ∧ result run = inr (json DeletedSuccessfully 200)).
Proof.
  cbv zeta. rewrite delete_run.
  assert (Hframe : ∀ id, id ≠ del_id req →
            videos (without_row kind (del_id req) db) !! id = videos db !! id
            ∧ images (without_row kind (del_id req) db) !! id = images db !! id).
  { intros id Hid. destruct kind; cbn [without_row videos images];
      split; try reflexivity; now apply lookup_delete_ne. }
  assert (Hother : ∀ id other, other ≠ kind →
            owner_of other (without_row kind (del_id req) db) id
              = owner_of other db id
            ∧ publicId_of other (without_row kind (del_id req) db) id
              = publicId_of other db id).
  { intros id other Hne. destruct kind, other; try congruence; split; reflexivity. }
  destruct (del_userId req) as [[|u0 u]|] eqn:Ha; cbn [db_after result].
  1, 3: split; [now left|]; split; [now split|]; split; [now split|];
        intros owner' H1 H2; congruence.
  destruct (owner_of kind db (del_id req)) as [owner|] eqn:Hown;
    [destruct (publicId_of kind db (del_id req)) as [publicId|] eqn:Hpub;
     [destruct (decide (owner = u0 :: u)) as [Heq|Hne]|]|];
    cbn [db_after result].
  2, 3, 4: split; [now left|]; split; [now split|]; split; [now split|];
           intros owner' H1 H2; congruence.
  split; [now right|]. split; [exact Hframe|]. split; [exact Hother|].
  intros owner' [= <-] _. split; [congruence | reflexivity].
Qed.

(** The answer and the database effect of a delete request do not depend
    on Cloudinary: whatever the destroy call returns, and whether it fails
    or not, the response and the database afterwards are the same. *)
Theorem delete_does_not_depend_on_the_provider kind E1 E2 req db :
  result (media_DELETE kind E1 req db) = result (media_DELETE kind E2 req db)
  ∧ db_after (media_DELETE kind E1 req db)
    = db_after (media_DELETE kind E2 req db).
Proof.
  rewrite !delete_run.
  destruct (del_userId req) as [[|u0 u]|]; [split; reflexivity | | split; reflexivity].
  destruct (owner_of kind db (del_id req)) as [owner|];
    [destruct (publicId_of kind db (del_id req)) as [publicId|];
     [destruct (decide (owner = u0 :: u))|]|];
    split; reflexivity.
Qed.

(** Deleting twice: once a delete request has been answered with the 200
    success message, the same request again is answered 404 and changes
    nothing. *)
Theorem delete_again_is_not_found kind E E' req db :
  result (media_DELETE kind E req db) = inr (json DeletedSuccessfully 200) →
  let db1 := db_after (media_DELETE kind E req db) in
  media_DELETE kind E' req db1
    = MkRun (inr (json (Error NotFound) 404)) db1 [find_event kind (del_id req)].
Proof.
  cbv zeta. rewrite (delete_run kind E req db).
  destruct (del_userId req) as [[|u0 u]|] eqn:Ha; cbn [result db_after];
    [discriminate | | discriminate].
  destruct (owner_of kind db (del_id req)) as [owner|];
    [destruct (publicId_of kind db (del_id req)) as [publicId|];
     [destruct (decide (owner = u0 :: u))|]|];
    cbn [result db_after]; try discriminate.
  intros _. rewrite delete_run, Ha, without_row_lookup. reflexivity.
Qed.

Lemma delete_again_example :
  let req := Scenario.delete_by "u1" "v1" in
  let db1 := db_after (media_DELETE RtVideo Scenario.env_ok req Scenario.library) in
  videos db1 !! lit "v2" = Some Scenario.video_of_u2
  ∧ media_DELETE RtVideo Scenario.env_destroy_fails req db1
    = MkRun (inr (json (Error NotFound) 404)) db1 [EVideoFindUnique (lit "v1")].
Proof.
  cbv zeta. split; [vm_compute; reflexivity|].
  apply (delete_again_is_not_found RtVideo Scenario.env_ok
           Scenario.env_destroy_fails (Scenario.delete_by "u1" "v1")
           Scenario.library).
  vm_compute. reflexivity.
Defined.

(** Upload, then delete: when a video upload succeeded, a delete request
    of the same caller for the id of the response is answered with the 200
    success message and leaves the database as it was before the upload. *)
Theorem upload_then_delete_restores E E' req db v s :
  result (VideoUpload.POST E req db) = inr (json (VideoUploaded v) s) →
  let db1 := db_after (VideoUpload.POST E req db) in
  let run :=
    VideoId.DELETE E' {| del_userId := auth_userId req; del_id := vj_id v |} db1 in
  result run = inr (json DeletedSuccessfully 200)
  ∧ db_after run = db
  ∧ ∃ publicId r,
      vj_publicId v = publicId
      ∧ calls run
        = EVideoFindUnique (vj_id v) :: EDestroy publicId RtVideo r
            :: match r with
               | Some _ => [EConsoleError "Cloudinary deletion failed:"]
               | None => []
               end
            ++ [EVideoDelete (vj_id v)].
Proof.
  intros Hok. cbv zeta.
  destruct (video_success_inv E req db v s Hok)
    as (userId & file & title & up & Hacc & Hup & Hid & Hpub & Hrun).
  pose proof (accepted_inv RtVideo req userId file title Hacc) as (Hu & _).
  destruct Hacc as (_ & Ha & _ & _).
  rewrite Hrun in Hok |- *. cbv zeta in Hok |- *.
  cbn [result db_after] in Hok |- *.
  injection Hok as <- _. cbn [vj_id vj_publicId VideoUpload.success_body].
  set (row := Prisma.video_row E _ userId).
  set (db1 := {| videos := _; images := _ |}).
  change (VideoId.DELETE E' ?r db1) with (media_DELETE RtVideo E' r db1).
  assert (Hlook : videos db1 !! v_id row = Some row)
    by apply lookup_insert_eq.
  rewrite (owner_delete_run RtVideo E' _ db1 userId (v_publicId row)).
  - cbn [result db_after calls without_row del_id videos images db1].
    split; [reflexivity|]. split.
    + change (v_id row) with (new_row_id E).
      rewrite delete_insert_eq, delete_id by exact Hid. destruct db; reflexivity.
    + eauto.
  - exact Ha.
  - exact Hu.
  - change (v_userId <$> videos db1 !! v_id row = Some userId).
    rewrite Hlook. reflexivity.
  - change (v_publicId <$> videos db1 !! v_id row = Some (v_publicId row)).
    rewrite Hlook. reflexivity.
Qed.

Lemma upload_then_delete_example :
  ∃ v,
    result (VideoUpload.POST Scenario.env_ok Scenario.demo_video Scenario.library_of_u2)
      = inr (json (VideoUploaded v) 201)
    ∧ vj_id v = lit "row-1"
    ∧ db_after
        (VideoId.DELETE Scenario.env_destroy_fails
           {| del_userId := Some (lit "u1"); del_id := vj_id v |}
           (db_after (VideoUpload.POST Scenario.env_ok Scenario.demo_video
                        Scenario.library_of_u2)))
      = Scenario.library_of_u2.
Proof.
  assert (Hok : ∃ v,
             result (VideoUpload.POST Scenario.env_ok Scenario.demo_video
                       Scenario.library_of_u2) = inr (json (VideoUploaded v) 201)
             ∧ vj_id v = lit "row-1")
    by (eexists; split; vm_compute; reflexivity).
  destruct Hok as (v & Hok & Hv). exists v.
  split; [exact Hok|]. split; [exact Hv|].
  apply (upload_then_delete_restores Scenario.env_ok Scenario.env_destroy_fails
           Scenario.demo_video Scenario.library_of_u2 v 201 Hok).
Defined.

(** ** The runs of an accepted upload *)

(** The tests of the handlers, for an accepted request. *)
Lemma accepted_tests kind req userId file title :
  accepted kind req userId file title →
  req = {| auth_userId := Some userId; form_file := Some file;
           form_title := Some title;
           form_description := form_description req |}
  ∧ (∃ u0 u, userId = u0 :: u)
  ∧ (∃ t0 t, title = t0 :: t)
  ∧ (length (Js.trim title) =? 0)%nat = false
  ∧ negb (Js.includes (ALLOWED_FORMATS kind) (file_type file)) = false
  ∧ (file_size file >? MAX_FILE_SIZE kind) = false.
Proof.
  intros (Hc & Ha & Hf & Ht).
  rewrite first_failing_check_eq, Ha, Hf, Ht in Hc.
  unfold unauthenticated, title_missing, format_rejected, size_rejected in Hc.
  destruct req as [a f t d]. cbn in Ha, Hf, Ht. subst a f t.
  split; [reflexivity|].
  destruct userId as [|u0 u]; [discriminate Hc|].
  destruct title as [|t0 t]; [discriminate Hc|].
  cbn [Js.truthy_string negb orb default from_option id] in Hc.
  destruct (length (Js.trim (t0 :: t)) =? 0)%nat; [discriminate Hc|].
  destruct (negb (Js.includes (ALLOWED_FORMATS kind) (file_type file)));
    [discriminate Hc|].
  destruct (file_size file >? MAX_FILE_SIZE kind); [discriminate Hc|].
  eauto 10.
Qed.


(** The run of an accepted video request whose create call hits a taken
    id or public id. *)
Lemma accepted_video_create_refused E req db userId file title up :
  accepted RtVideo req userId file title →
  cloud_upload E (upload_options RtVideo E userId) file = inr up →
  bool_decide (is_Some (videos db !! new_row_id E))
    || Prisma.video_publicId_taken db (res_public_id up) = true →
  VideoUpload.POST E req db =
    MkRun (inr (json (Error DatabaseError) 500)) db
      [EUpload (upload_options RtVideo E userId) file (inr up);
       EVideoCreate
         (VideoUpload.create_data userId file title (form_description req) up);
       EConsoleError "Unexpected error during upload:";
       EConsoleError "Database error:"].
Proof.
  intros Hacc Hup Htaken.
  destruct (accepted_tests RtVideo req userId file title Hacc)
    as (-> & (u0 & u & ->) & (t0 & t & ->) & Htitle & Hfmt & Hsize).
  cbn [ALLOWED_FORMATS MAX_FILE_SIZE] in *.
  unfold VideoUpload.POST.
  cbn [auth_userId form_file form_title form_description] in *.
  rewrite Htitle, Hfmt, Hsize.
  change (VideoUpload.upload_options (VideoUpload.generate_publicId E (u0 :: u)))
    with (upload_options RtVideo E (u0 :: u)).
  unfold Prisma.video_create. run_monad. rewrite Hup.
  cbn [vd_userId VideoUpload.create_data vd_publicId].
  cbv beta iota. rewrite Htaken. reflexivity.
Qed.

(** ** What the catch block answers *)




(** ** A public id that is already stored *)

(** When the provider returns a public id that a stored video already has
    (or the new row's id is taken), the video upload is answered as a
    database error with status 500 and stores nothing, although the asset
    has been uploaded; the only calls are the upload, the create and the
    two log lines. *)
Theorem taken_public_id_is_a_database_error E req db userId file title up :
  accepted RtVideo req userId file title →
  cloud_upload E (upload_options RtVideo E userId) file = inr up →
  (is_Some (videos db !! new_row_id E)
   ∨ ∃ id row, videos db !! id = Some row ∧ v_publicId row = res_public_id up) →
  VideoUpload.POST E req db =
    MkRun (inr (json (Error DatabaseError) 500)) db
      [EUpload (upload_options RtVideo E userId) file (inr up);
       EVideoCreate
         (VideoUpload.create_data userId file title (form_description req) up);
       EConsoleError "Unexpected error during upload:";
       EConsoleError "Database error:"].
Proof.
  intros Hacc Hup Htaken.
  apply accepted_video_create_refused; [assumption | assumption |].
  apply orb_true_iff. destruct Htaken as [Hid | (id & row & Hrow & Hp)].
  - left. now apply bool_decide_eq_true.
  - right. unfold Prisma.video_publicId_taken. apply bool_decide_eq_true.
    exists id, row. split; assumption.
Qed.

(** "u1" uploads a video while the library already holds a video stored
    as "videos/u1/123-abc", the public id the provider returns. *)
Lemma taken_public_id_example :
  let run := VideoUpload.POST Scenario.env_ok Scenario.demo_video Scenario.library in
  videos Scenario.library !! lit "v1" = Some Scenario.video_of_u1
  ∧ result run = inr (json (Error DatabaseError) 500)
  ∧ db_after run = Scenario.library.
Proof.
  cbv zeta. split; [vm_compute; reflexivity|].
  assert (Hacc : accepted RtVideo Scenario.demo_video (lit "u1")
                   (Scenario.file "video/mp4" 15728640) (lit "demo"))
    by (repeat split).
  rewrite (taken_public_id_is_a_database_error Scenario.env_ok
             Scenario.demo_video Scenario.library (lit "u1")
             (Scenario.file "video/mp4" 15728640) (lit "demo")
             {| res_public_id := lit "videos/u1/123-abc";
                res_secure_url := lit "https://cdn/videos/u1/123-abc";
                res_bytes := Some 6000000;
                res_duration := Some (QArith_base.Qmake 85 2) |} Hacc).
  - split; reflexivity.
  - vm_compute. reflexivity.
  - right. exists (lit "v1"), Scenario.video_of_u1.
    split; vm_compute; reflexivity.
Defined.

(** ** The table constraints are kept *)

Lemma videos_ok_empty : videos_ok ∅.
Proof.
  split; [intros id row H | intros id1 id2 r1 r2 H];
    rewrite lookup_empty in H; discriminate.
Qed.

Lemma images_ok_empty : images_ok ∅.
Proof.
  split; [intros id row H | intros id1 id2 r1 r2 H];
    rewrite lookup_empty in H; discriminate.
Qed.

Lemma videos_ok_insert t id row :
  videos_ok t →
  v_id row = id →
  (∀ id' row', t !! id' = Some row' → v_publicId row' ≠ v_publicId row) →
  videos_ok (<[id := row]> t).
Proof.
  intros (Hkey & Huniq) Hrow Hfresh. split.
  - intros id' row' H. apply lookup_insert_Some in H as [[<- <-] | [_ H]]; eauto.
  - intros id1 id2 r1 r2 H1 H2 Hp.
    apply lookup_insert_Some in H1 as [[<- <-] | [Hn1 H1]];
      apply lookup_insert_Some in H2 as [[<- <-] | [Hn2 H2]].
    + reflexivity.
    + exfalso. eapply Hfresh; eauto.
    + exfalso. eapply Hfresh; eauto.
    + eauto.
Qed.

Lemma videos_ok_delete t id : videos_ok t → videos_ok (delete id t).
Proof.
  intros (Hkey & Huniq). split.
  - intros id' row H. apply lookup_delete_Some in H as [_ H]. eauto.
  - intros id1 id2 r1 r2 H1 H2.
    apply lookup_delete_Some in H1 as [_ H1].
    apply lookup_delete_Some in H2 as [_ H2]. eauto.
Qed.

Lemma images_ok_delete t id : images_ok t → images_ok (delete id t).
Proof.
  intros (Hkey & Huniq). split.
  - intros id' row H. apply lookup_delete_Some in H as [_ H]. eauto.
  - intros id1 id2 r1 r2 H1 H2.
    apply lookup_delete_Some in H1 as [_ H1].
    apply lookup_delete_Some in H2 as [_ H2]. eauto.
Qed.

Lemma publicId_not_taken db p :
  Prisma.video_publicId_taken db p = false →
  ∀ id row, videos db !! id = Some row → v_publicId row ≠ p.
Proof.
  unfold Prisma.video_publicId_taken. intros H id row Hrow Hp.
  apply bool_decide_eq_false in H. apply H. exists id, row. auto.
Qed.

(** Every handler keeps the constraints of the tables: if each row is
    stored under its own id and no two rows of a table share a public id,
    the same holds after any upload request and after any delete
    request. *)
Theorem handlers_keep_the_constraints kind E req dreq db :
  constraints_hold db →
  constraints_hold (db_after (upload_POST kind E req db))
  ∧ constraints_hold (db_after (media_DELETE kind E dreq db)).
Proof.
  intros (Hv & Hi). split.
  - destruct (upload_outcome kind E req db)
      as [c Hc | userId file title err resp logs Hacc Hup Hf Hl
          | userId file title up resp logs Hacc Hup Hf Hl
          | userId file title up Hk Hacc Hup Hid Hpub];
      cbv zeta; cbn [db_after]; try (split; assumption).
    split; [|exact Hi]. cbn [videos images].
    apply videos_ok_insert; [exact Hv | reflexivity |].
    intros id' row' Hrow'. cbn. now apply (publicId_not_taken db _ Hpub id').
  - rewrite delete_run.
    destruct (del_userId dreq) as [[|u0 u]|]; cbn [db_after];
      try (split; assumption).
    destruct (owner_of kind db (del_id dreq)) as [owner|];
      [destruct (publicId_of kind db (del_id dreq)) as [publicId|];
       [destruct (decide (owner = u0 :: u))|]|];
      cbn [db_after]; try (split; assumption).
    destruct kind; cbn [without_row]; split; cbn [videos images];
      auto using videos_ok_delete, images_ok_delete.
Qed.

(** The library with the video of "u2", after "u1" uploaded a video. *)
Lemma handlers_keep_the_constraints_example :
  constraints_hold Scenario.library_of_u2
  ∧ videos (db_after (upload_POST RtVideo Scenario.env_ok Scenario.demo_video
                        Scenario.library_of_u2)) !! lit "row-1"
    = Some (Prisma.video_row Scenario.env_ok
              (VideoUpload.create_data (lit "u1")
                 (Scenario.file "video/mp4" 15728640) (lit "demo") None
                 {| res_public_id := lit "videos/u1/123-abc";
                    res_secure_url := lit "https://cdn/videos/u1/123-abc";
                    res_bytes := Some 6000000;
                    res_duration := Some (QArith_base.Qmake 85 2) |})
              (lit "u1"))
  ∧ constraints_hold
      (db_after (upload_POST RtVideo Scenario.env_ok Scenario.demo_video
                   Scenario.library_of_u2)).
Proof.
  assert (H0 : constraints_hold Scenario.library_of_u2).
  { split; [|apply images_ok_empty]. cbn [videos Scenario.library_of_u2].
    apply videos_ok_insert; [apply videos_ok_empty | reflexivity |].
    intros id row H. rewrite lookup_empty in H. discriminate. }
  split; [exact H0|]. split; [vm_compute; reflexivity|].
  apply (handlers_keep_the_constraints RtVideo Scenario.env_ok
           Scenario.demo_video (Scenario.delete_by "u1" "v1")
           Scenario.library_of_u2 H0).
Defined.

(** ** Public ids *)

(** The public id under which an upload is sent to Cloudinary lies in the
    folder of the kind and of the caller ("videos/<userId>/..." or
    "images/<userId>/..."), the resource type of the call is the kind's;
    at the same clock and random value two different callers get
    different public ids, and a video never gets the public id of an
    image. *)
Theorem public_ids_are_namespaced kind E :
  (∀ userId,
     folder kind ++ userId ++ lit "/"
       `prefix_of` public_id (upload_options kind E userId)
     ∧ resource_type (upload_options kind E userId) = kind)
  ∧ (∀ u1 u2,
       public_id (upload_options kind E u1) = public_id (upload_options kind E u2) →
       u1 = u2)
  ∧ (∀ E' u1 u2,
       public_id (upload_options RtVideo E u1)
         ≠ public_id (upload_options RtImage E' u2))
  ∧ (∀ req db userId file r rest,
       calls (upload_POST kind E req db)
         = EUpload (upload_options kind E userId) file r :: rest →
       auth_userId req = Some userId).
Proof.
  split; [|split; [|split]].
  - intros userId. destruct kind; (split; [|reflexivity]);
      exists (lit (pretty (Date_now E)) ++ lit "-" ++ random36 E);
      cbn [upload_options public_id VideoUpload.upload_options
           ImageUpload.upload_options folder];
      unfold VideoUpload.generate_publicId, ImageUpload.generate_publicId;
      now rewrite <- !app_assoc.
  - intros u1 u2. destruct kind;
      cbn [upload_options public_id VideoUpload.upload_options
           ImageUpload.upload_options];
      unfold VideoUpload.generate_publicId, ImageUpload.generate_publicId;
      intros H; apply app_inv_head in H; now apply app_inv_tail in H.
  - intros E' u1 u2 H. cbn in H. discriminate H.
  - intros req db userId file r rest Hcalls.
    destruct (upload_outcome kind E req db)
      as [c Hc | userId' file' title err resp logs Hacc Hup Hf Hl
          | userId' file' title up resp logs Hacc Hup Hf Hl
          | userId' file' title up Hk Hacc Hup Hid Hpub];
      cbv zeta in Hcalls; cbn [calls] in Hcalls; [discriminate| | |].
    all: injection Hcalls as Hopt _; destruct Hacc as (_ & Ha & _);
      rewrite Ha; f_equal.
    all: apply (f_equal public_id) in Hopt.
    all: destruct kind;
      cbn [upload_options public_id VideoUpload.upload_options
           ImageUpload.upload_options] in Hopt;
      unfold VideoUpload.generate_publicId, ImageUpload.generate_publicId in Hopt;
      apply app_inv_head in Hopt; now apply app_inv_tail in Hopt.
Qed.

(** ** The success response *)

(** The body of a successful video upload reports the row that was
    stored: the row under the returned id has the returned publicId,
    title, description, sizes, duration and creation time, and the
    returned secureUrl is the provider's, which no column holds. *)
Theorem success_response_reports_the_row E req db v s :
  result (VideoUpload.POST E req db) = inr (json (VideoUploaded v) s) →
  s = 201
  ∧ ∃ userId file up row,
      cloud_upload E (upload_options RtVideo E userId) file = inr up
      ∧ videos (db_after (VideoUpload.POST E req db)) !! vj_id v = Some row
      ∧ v_id row = vj_id v
      ∧ v_publicId row = vj_publicId v
      ∧ v_title row = vj_title v
      ∧ v_description row = vj_description v
      ∧ v_originalSize row = vj_originalSize v
      ∧ v_compressedSize row = vj_compressedSize v
      ∧ v_duration row = vj_duration v
      ∧ v_createdAt row = vj_createdAt v
      ∧ vj_secureUrl v = res_secure_url up.
Proof.
  intros Hok.
  destruct (video_success_inv E req db v s Hok)
    as (userId & file & title & up & Hacc & Hup & Hid & Hpub & Hrun).
  rewrite Hrun in Hok |- *. cbv zeta in Hok |- *.
  cbn [result db_after videos] in Hok |- *.
  injection Hok as <- <-. split; [reflexivity|].
  exists userId, file, up. eexists.
  split; [exact Hup|]. split; [apply lookup_insert_eq|].
  repeat split.
Qed.

Lemma success_response_example :
  ∃ v row,
    result (VideoUpload.POST Scenario.env_ok Scenario.demo_video
              Scenario.empty_db) = inr (json (VideoUploaded v) 201)
    ∧ videos (db_after (VideoUpload.POST Scenario.env_ok Scenario.demo_video
                          Scenario.empty_db)) !! vj_id v = Some row
    ∧ v_publicId row = vj_publicId v
    ∧ vj_secureUrl v = lit "https://cdn/videos/u1/123-abc".
Proof.
  assert (Hok : ∃ v,
             result (VideoUpload.POST Scenario.env_ok Scenario.demo_video
                       Scenario.empty_db) = inr (json (VideoUploaded v) 201)
             ∧ vj_secureUrl v = lit "https://cdn/videos/u1/123-abc")
    by (eexists; split; vm_compute; reflexivity).
  destruct Hok as (v & Hok & Hurl).
  destruct (success_response_reports_the_row Scenario.env_ok
              Scenario.demo_video Scenario.empty_db v 201 Hok)
    as (_ & userId & file & up & row & _ & Hrow & _ & Hp & _).
  exists v, row. auto.
Defined.

(** * Cloudinary URLs *)

(** The three URL builders return the empty string, and write one line to
    the console, exactly when the cloud name is not set or empty;
    otherwise they return a URL and write nothing. *)
Theorem url_builders_need_the_cloud_name cloudName publicId preset type :
  let image := Download.getImageDownloadUrl cloudName publicId preset in
  let video := Download.getVideoDownloadUrl cloudName publicId in
  let thumb := Format.getCloudinaryThumbnailUrl cloudName publicId type in
  (Js.truthy_string cloudName = false →
     image = ([], ["NEXT_PUBLIC_CLOUDINARY_CLOUD_NAME is not set"])
     ∧ video = ([], ["NEXT_PUBLIC_CLOUDINARY_CLOUD_NAME is not set"])
     ∧ thumb = ([], ["NEXT_PUBLIC_CLOUDINARY_CLOUD_NAME is not set"]))
  ∧ (Js.truthy_string cloudName = true →
     (image.1 ≠ [] ∧ image.2 = [])
     ∧ (video.1 ≠ [] ∧ video.2 = [])
     ∧ (thumb.1 ≠ [] ∧ thumb.2 = [])).
Proof.
  cbv zeta.
  unfold Download.getImageDownloadUrl, Download.getVideoDownloadUrl,
    Format.getCloudinaryThumbnailUrl.
  destruct (Js.truthy_string cloudName); cbn [negb]; split;
    try discriminate; intros _.
  - repeat split; try discriminate.
    + destruct (negb _ || negb _); discriminate.
    + destruct (negb _ || negb _); reflexivity.
    + destruct type; discriminate.
    + destruct type; reflexivity.
  - repeat split.
Qed.

Lemma download_url_eq cloud publicId preset :
  cloud ≠ [] →
  (Download.getImageDownloadUrl (Some cloud) publicId preset).1
  = lit "https://res.cloudinary.com/" ++ cloud ++ lit "/image/upload/"
      ++ download_flags preset ++ lit "/" ++ publicId.
Proof.
  intros Hc. unfold Download.getImageDownloadUrl, download_flags.
  destruct cloud as [|c0 c]; [congruence|].
  cbn [Js.truthy_string negb default from_option id].
  destruct preset; reflexivity.
Qed.

(** With a cloud name, the image download URL is
    "https://res.cloudinary.com/<cloud>/image/upload/<flags>/<publicId>",
    whose flags end with "fl_attachment" and are "fl_attachment" alone for
    the preset [original] only; different presets give different URLs,
    different public ids give different URLs, and no image download URL is
    a video download URL. *)
Theorem download_urls_are_distinct cloud publicId preset :
  cloud ≠ [] →
  let url p q := (Download.getImageDownloadUrl (Some cloud) p q).1 in
  url publicId preset
    = lit "https://res.cloudinary.com/" ++ cloud ++ lit "/image/upload/"
        ++ download_flags preset ++ lit "/" ++ publicId
  ∧ lit "fl_attachment" `suffix_of` download_flags preset
  ∧ (download_flags preset = lit "fl_attachment" ↔ preset = Download.original)
  ∧ (∀ preset', url publicId preset = url publicId preset' → preset = preset')
  ∧ (∀ publicId', url publicId preset = url publicId' preset → publicId = publicId')
  ∧ (∀ publicId',
       url publicId preset
         ≠ (Download.getVideoDownloadUrl (Some cloud) publicId').1).
Proof.
  intros Hc. cbv beta zeta. rewrite download_url_eq by exact Hc.
  split; [reflexivity|]. split; [|split; [|split; [|split]]].
  - destruct preset; apply (bool_decide_unpack _); vm_compute; exact I.
  - split; [|intros ->; reflexivity].
    destruct preset; intros H; vm_compute in H; try discriminate H; reflexivity.
  - intros preset'. rewrite download_url_eq by exact Hc. intros H.
    do 3 apply app_inv_head in H. apply app_inv_tail in H.
    destruct preset, preset'; vm_compute in H;
      try discriminate H; reflexivity.
  - intros publicId'. rewrite download_url_eq by exact Hc. intros H.
    now do 5 apply app_inv_head in H.
  - intros publicId' H. unfold Download.getVideoDownloadUrl in H.
    destruct cloud as [|c0 c]; [congruence|].
    cbn [Js.truthy_string negb default from_option id fst] in H.
    do 2 apply app_inv_head in H. cbn in H. discriminate H.
Qed.

Lemma download_urls_example :
  (Download.getImageDownloadUrl (Some (lit "demo")) (lit "images/u1/123-abc")
     Download.instagram_story).1
  = lit "https://res.cloudinary.com/demo/image/upload/w_1080,h_1920,c_fill,q_auto,f_auto,fl_attachment/images/u1/123-abc"
  ∧ ∀ preset',
      (Download.getImageDownloadUrl (Some (lit "demo")) (lit "images/u1/123-abc")
         Download.instagram_story).1
      = (Download.getImageDownloadUrl (Some (lit "demo")) (lit "images/u1/123-abc")
           preset').1 →
      Download.instagram_story = preset'.
Proof.
  split; [vm_compute; reflexivity|].
  assert (Hc : lit "demo" ≠ []) by (vm_compute; discriminate).
  apply (download_urls_are_distinct (lit "demo") (lit "images/u1/123-abc")
           Download.instagram_story Hc).
Defined.

(** With a cloud name, the thumbnail URL of a video is that of an image
    with "/video/upload/" in place of "/image/upload/" and ".jpg" appended;
    the two are never equal, and different public ids give different
    thumbnail URLs. *)
Theorem thumbnail_urls_are_distinct cloud publicId :
  cloud ≠ [] →
  let url p t := (Format.getCloudinaryThumbnailUrl (Some cloud) p t).1 in
  url publicId Format.image
    = lit "https://res.cloudinary.com/" ++ cloud
        ++ lit "/image/upload/w_400,h_300,c_fill,q_auto,f_auto/" ++ publicId
  ∧ url publicId Format.video
    = lit "https://res.cloudinary.com/" ++ cloud
        ++ lit "/video/upload/w_400,h_300,c_fill,q_auto,f_auto/" ++ publicId
        ++ lit ".jpg"
  ∧ (∀ publicId', url publicId Format.image ≠ url publicId' Format.video)
  ∧ (∀ publicId' t, url publicId t = url publicId' t → publicId = publicId').
Proof.
  intros Hc. cbv beta zeta. unfold Format.getCloudinaryThumbnailUrl.
  destruct cloud as [|c0 c]; [congruence|].
  cbn [Js.truthy_string negb default from_option id fst].
  split; [reflexivity|]. split; [reflexivity|]. split.
  - intros publicId' H. do 2 apply app_inv_head in H. cbn in H. discriminate H.
  - intros publicId' t H. destruct t.
    + now do 5 apply app_inv_head in H.
    + do 5 apply app_inv_head in H. now apply app_inv_tail in H.
Qed.

Lemma thumbnail_urls_example :
  (Format.getCloudinaryThumbnailUrl (Some (lit "demo")) (lit "videos/u1/123-abc")
     Format.video).1
  = lit "https://res.cloudinary.com/demo/video/upload/w_400,h_300,c_fill,q_auto,f_auto/videos/u1/123-abc.jpg"
  ∧ ∀ publicId',
      (Format.getCloudinaryThumbnailUrl (Some (lit "demo"))
         (lit "videos/u1/123-abc") Format.image).1
      ≠ (Format.getCloudinaryThumbnailUrl (Some (lit "demo")) publicId'
           Format.video).1.
Proof.
  split; [vm_compute; reflexivity|].
  assert (Hc : lit "demo" ≠ []) by (vm_compute; discriminate).
  apply (thumbnail_urls_are_distinct (lit "demo") (lit "videos/u1/123-abc") Hc).
Defined.

(** * The upload pages *)

(** ** Trimming twice *)

Lemma trimStart_fix c r :
  Js.isWhiteSpace c = false → Js.trimStart (c :: r) = c :: r.
Proof. intros H. cbn. now rewrite H. Qed.

Lemma trimStart_split s :
  ∃ k, s = k ++ Js.trimStart s.
Proof.
  induction s as [|c s (k & IH)]; [now exists []|].
  cbn. destruct (Js.isWhiteSpace c).
  - exists (c :: k). cbn. now f_equal.
  - now exists [].
Qed.

(** A non-empty prefix of a left-trimmed string is left-trimmed. *)
Lemma trimStart_prefix s x y :
  Js.trimStart s = x ++ y → Js.trimStart x = x.
Proof.
  destruct x as [|c x]; [reflexivity|].
  intros H. apply trimStart_fix. eapply trimStart_head. exact H.
Qed.

Lemma trim_trimStart s : Js.trimStart (Js.trim s) = Js.trim s.
Proof.
  unfold Js.trim, Js.trimEnd.
  destruct (trimStart_split (reverse (Js.trimStart s))) as (k & Hk).
  apply (trimStart_prefix s _ (reverse k)).
  rewrite <- reverse_app, <- Hk. now rewrite reverse_involutive.
Qed.

(** [s.trim().trim()] is [s.trim()]. *)
Lemma trim_idemp s : Js.trim (Js.trim s) = Js.trim s.
Proof.
  unfold Js.trim at 1. rewrite trim_trimStart.
  unfold Js.trim, Js.trimEnd.
  now rewrite reverse_involutive, trimStart_idemp.
Qed.

(** ** The checks of the pages and of the routes *)

Lemma page_validation_agrees_aux kind f :
  page_validateFile kind f = None
  ↔ format_rejected kind f = false ∧ size_rejected kind f = false.
Proof.
  assert (H : page_validateFile kind f =
              if format_rejected kind f
              then Some (Page.PageInvalidFormat (file_type f))
              else if size_rejected kind f
                   then Some (Page.PageFileTooLarge (file_size f))
                   else None)
    by (destruct kind; reflexivity).
  rewrite H.
  destruct (format_rejected kind f), (size_rejected kind f);
    split; try discriminate; try tauto; intros [? ?]; discriminate.
Qed.

(** The file check of each page accepts exactly the files the format and
    size checks of its route accept, and reports the format before the
    size, as the route does. *)
Theorem page_validation_agrees_with_the_route kind f :
  (page_validateFile kind f = None
     ↔ format_rejected kind f = false ∧ size_rejected kind f = false)
  ∧ (page_validateFile kind f = Some (Page.PageInvalidFormat (file_type f))
     ↔ format_rejected kind f = true)
  ∧ (page_validateFile kind f = Some (Page.PageFileTooLarge (file_size f))
     ↔ format_rejected kind f = false ∧ size_rejected kind f = true)
  ∧ (∀ req, form_file req = Some f →
       page_validateFile kind f = None →
       check_fails kind req CheckFormat = false
       ∧ check_fails kind req CheckSize = false).
Proof.
  assert (H : page_validateFile kind f =
              if format_rejected kind f
              then Some (Page.PageInvalidFormat (file_type f))
              else if size_rejected kind f
                   then Some (Page.PageFileTooLarge (file_size f))
                   else None)
    by (destruct kind; reflexivity).
  rewrite H. clear H. unfold check_fails.
  destruct (format_rejected kind f) eqn:Hfmt, (size_rejected kind f) eqn:Hsize.
  all: split; [split; [discriminate || tauto | intros [? ?]; congruence]|].
  all: split; [split; [discriminate || tauto | congruence]|].
  all: split; [split; [discriminate || tauto | intros [? ?]; congruence]|].
  all: intros req Hf Hv; try discriminate Hv; rewrite Hf; tauto.
Qed.

(** ** The file held by the video page *)

(** The video page only ever holds a file that passed its check: this
    holds at the start and is kept by picking or dropping a file (a
    rejected file leaves the held file as it was and shows the error), by
    an upload, whatever the network answers, and by a reset. *)
Theorem video_page_keeps_a_validated_file st :
  file_was_validated RtVideo Page.initial_page
  ∧ (file_was_validated RtVideo st →
     (∀ picked, file_was_validated RtVideo
                  (VideoUploadPage.handleFileChange picked st))
     ∧ (∀ dropped, file_was_validated RtVideo
                     (VideoUploadPage.handleDrop dropped st))
     ∧ (∀ fetch, file_was_validated RtVideo
                   (VideoUploadPage.handleUpload fetch st).1)
     ∧ file_was_validated RtVideo (VideoUploadPage.handleReset st))
  ∧ (∀ picked err,
       VideoUploadPage.validateFile picked = Some err →
       let st' := VideoUploadPage.handleFileChange (Some picked) st in
       Page.file st' = Page.file st
       ∧ Page.uploadState st' = Page.error
       ∧ Page.errorMessage st' = err).
Proof.
  split; [intros f H; discriminate H|]. split.
  - intros Hst.
    assert (Htake : ∀ picked st0,
              file_was_validated RtVideo st0 →
              file_was_validated RtVideo (VideoUploadPage.take_file picked st0)).
    { intros [f|] st0 H0; [|exact H0]. unfold VideoUploadPage.take_file.
      destruct (VideoUploadPage.validateFile f) eqn:Hv; intros g Hg;
        cbn [Page.file] in Hg.
      - now apply H0.
      - injection Hg as <-. exact Hv. }
    split; [intros picked; now apply Htake|].
    split; [intros dropped; apply Htake; exact Hst|].
    split; [|intros f H; discriminate H].
    intros fetch f. unfold VideoUploadPage.handleUpload, Page.handleUpload_with.
    destruct (Page.file st) as [g|] eqn:Hg.
    + destruct (negb _).
      * cbn. intros [= <-]. now apply Hst.
      * destruct (fetch _) as [thrown|response];
          [|destruct (negb (Page.response_ok response))];
          cbn; intros [= <-]; now apply Hst.
    + cbn. discriminate.
  - intros picked err Hv. cbv zeta.
    unfold VideoUploadPage.handleFileChange, VideoUploadPage.take_file.
    rewrite Hv. repeat split.
Qed.

(** A 30 MiB mp4 is picked while a valid file is held. *)
Lemma video_page_example :
  let st := VideoUploadPage.handleFileChange
              (Some (Scenario.file "video/mp4" 15728640)) Page.initial_page in
  let st' := VideoUploadPage.handleFileChange
               (Some (Scenario.file "video/mp4" 31457280)) st in
  Page.file st' = Some (Scenario.file "video/mp4" 15728640)
  ∧ Page.errorMessage st' = Page.PageFileTooLarge 31457280
  ∧ file_was_validated RtVideo st'.
Proof.
  cbv zeta.
  pose proof (video_page_keeps_a_validated_file Page.initial_page)
    as (H0 & Hkeep & _).
  destruct (Hkeep H0) as (Hpick & _).
  pose proof (video_page_keeps_a_validated_file
                (VideoUploadPage.handleFileChange
                   (Some (Scenario.file "video/mp4" 15728640))
                   Page.initial_page))
    as (_ & Hkeep' & _).
  split; [vm_compute; reflexivity|]. split; [vm_compute; reflexivity|].
  apply Hkeep'. apply Hpick.
Defined.

(** ** What the pages send *)

(** An upload page sends a request exactly when it holds a file and the
    title is not blank, and then sends one request, carrying the file, the
    trimmed title, and the trimmed description unless that is empty. If
    the held file passed the page's check, the route rejects that request
    only when the session is missing: with a session, no check of the
    route fails. *)
Theorem page_requests_pass_the_route_checks kind fetch st :
  let sent := (Page.handleUpload_with fetch st).2 in
  (sent = []
     ↔ Page.file st = None ∨ blank (Page.title st))
  ∧ (∀ fd, fd ∈ sent →
       sent = [fd]
       ∧ Page.fd_file fd = Page.file st
       ∧ Page.fd_title fd = Some (Js.trim (Page.title st))
       ∧ Page.fd_description fd =
           (if decide (blank (Page.description st)) then None
            else Some (Js.trim (Page.description st)))
       ∧ (file_was_validated kind st →
          ∀ session,
            first_failing_check kind (Page.request_of session fd) =
              if unauthenticated session then Some CheckCaller else None)).
Proof.
  cbv zeta. unfold Page.handleUpload_with.
  destruct (Page.file st) as [f|] eqn:Hf.
  2: { cbn. split; [tauto|]. intros fd H. apply elem_of_nil in H. contradiction. }
  destruct (Js.trim (Page.title st)) as [|t0 t] eqn:Ht.
  { cbn. split; [split; [intros _; right; now apply trim_nil_iff | reflexivity]|].
    intros fd H. apply elem_of_nil in H. contradiction. }
  assert (Hnb : ¬ blank (Page.title st)).
  { intros Hb. apply trim_nil_iff in Hb. congruence. }
  cbn [Js.truthy_string negb].
  set (fd0 := {| Page.fd_file := Some f;
                 Page.fd_title := Some (t0 :: t);
                 Page.fd_description := _ |}).
  assert (Hgoal : ∀ sent : list Page.FormData,
            sent = [fd0] →
            (sent = [] ↔ Some f = None ∨ blank (Page.title st))
            ∧ (∀ fd, fd ∈ sent →
                 sent = [fd]
                 ∧ Page.fd_file fd = Some f
                 ∧ Page.fd_title fd = Some (t0 :: t)
                 ∧ Page.fd_description fd =
                     (if decide (blank (Page.description st)) then None
                      else Some (Js.trim (Page.description st)))
                 ∧ (file_was_validated kind st →
                    ∀ session,
                      first_failing_check kind (Page.request_of session fd) =
                        if unauthenticated session then Some CheckCaller
                        else None))).
  2: { destruct (fetch fd0) as [e|r];
         [|destruct (negb (Page.response_ok r))]; apply Hgoal; reflexivity. }
  intros sent ->.
  split; [split; [discriminate | intros [H|H]; [discriminate | contradiction]]|].
  intros fd Hin. apply list_elem_of_singleton in Hin. subst fd.
  split; [reflexivity|]. split; [reflexivity|]. split; [reflexivity|]. split.
  - unfold fd0. cbn [Page.fd_description].
    destruct (decide (blank (Page.description st))) as [Hb|Hb].
    + apply trim_nil_iff in Hb. now rewrite Hb.
    + destruct (Js.trim (Page.description st)) eqn:Hd; [|reflexivity].
      exfalso. apply Hb. now apply trim_nil_iff.
  - intros Hval session.
    rewrite first_failing_check_eq.
    cbn [Page.request_of auth_userId form_file form_title Page.fd_file
         Page.fd_title fd0].
    destruct (unauthenticated session); [reflexivity|].
    assert (Htm : title_missing (Some (t0 :: t)) = false).
    { unfold title_missing. cbn [Js.truthy_string negb orb default from_option id].
      rewrite <- Ht, trim_idemp, Ht. reflexivity. }
    rewrite Htm.
    pose proof (proj1 (page_validation_agrees_aux kind f) (Hval f Hf))
      as [-> ->].
    reflexivity.
Qed.

(** ** The video page against the video route *)



(** * The dashboard against the delete routes *)

(** When the dashboard's delete is answered by the delete route of the
    item's type, the lists stay in step with the database: if every row
    shown was a stored row before, every row shown is a stored row after.
    On the 200 answer the item is dropped from the list of its type (and
    only from that list), the dialog is closed and nothing is alerted; on
    any other answer both lists and the dialog stay as they were, the
    database is unchanged and the route's error text is alerted. *)
Theorem dashboard_delete_follows_the_route E session db st item :
  Dashboard.itemToDelete st = Some item →
  dashboard_shows_stored_rows st db →
  let kind := Dashboard.kind_of (Dashboard.type item) in
  let req := {| del_userId := session; del_id := Dashboard.id item |} in
  let fetch := λ t id,
    result (media_DELETE (Dashboard.kind_of t) E
              {| del_userId := session; del_id := id |} db) in
  let out := Dashboard.handleDelete fetch st in
  let run := media_DELETE kind E req db in
  dashboard_shows_stored_rows out.1.1 (db_after run)
  ∧ out.1.2 = [(Dashboard.type item, Dashboard.id item)]
  ∧ Dashboard.isDeleting out.1.1 = false
  ∧ (result run = inr (json DeletedSuccessfully 200) →
     out.2 = []
     ∧ Dashboard.itemToDelete out.1.1 = None
     ∧ Dashboard.videos out.1.1 =
         match Dashboard.type item with
         | Dashboard.video =>
             filter (λ v, v_id v ≠ Dashboard.id item) (Dashboard.videos st)
         | Dashboard.image => Dashboard.videos st
         end
     ∧ Dashboard.images out.1.1 =
         match Dashboard.type item with
         | Dashboard.video => Dashboard.images st
         | Dashboard.image =>
             filter (λ i, i_id i ≠ Dashboard.id item) (Dashboard.images st)
         end)
  ∧ (result run ≠ inr (json DeletedSuccessfully 200) →
     db_after run = db
     ∧ Dashboard.videos out.1.1 = Dashboard.videos st
     ∧ Dashboard.images out.1.1 = Dashboard.images st
     ∧ Dashboard.itemToDelete out.1.1 = Some item
     ∧ ∃ e s, result run = inr (json (Error e) s)
              ∧ out.2 = [Dashboard.ServerSaid e]).
Proof.
  intros Hitem (Hv & Hi). cbv zeta.
  unfold Dashboard.handleDelete. rewrite Hitem.
  set (run := media_DELETE (Dashboard.kind_of (Dashboard.type item)) E
                {| del_userId := session; del_id := Dashboard.id item |} db).
  assert (Hrun : run = MkRun (result run) (db_after run) (calls run))
    by (destruct run; reflexivity).
  assert (Hcases :
    (result run = inr (json DeletedSuccessfully 200)
     ∧ db_after run
       = without_row (Dashboard.kind_of (Dashboard.type item))
           (Dashboard.id item) db)
    ∨ (db_after run = db
       ∧ ∃ e s, result run = inr (json (Error e) s)
                ∧ Page.response_ok (json (Error e) s) = false)).
  { unfold run. rewrite delete_run. cbn [del_userId del_id].
    destruct session as [[|u0 u]|]; cbn [result db_after];
      [right; split; [reflexivity|]; now exists Unauthorized, 401
      | | right; split; [reflexivity|]; now exists Unauthorized, 401].
    destruct (owner_of _ db (Dashboard.id item)) as [owner|];
      [destruct (publicId_of _ db (Dashboard.id item)) as [publicId|];
       [destruct (decide (owner = u0 :: u))|]|];
      cbn [result db_after].
    - left. split; reflexivity.
    - right. split; [reflexivity|]. now exists Forbidden, 403.
    - right. split; [reflexivity|]. now exists NotFound, 404.
    - right. split; [reflexivity|]. now exists NotFound, 404. }
  destruct Hcases as [(Hok & Hdb) | (Hdb & e & s & Hres & Hnok)].
  - rewrite Hok, Hdb.
    cbn [Page.response_ok status negb andb Z.leb fst snd]. 
    change (negb ((200 <=? 200) && (200 <=? 299))) with false. cbv iota.
    split; [|split; [reflexivity|split]].
    + destruct (Dashboard.type item); cbn [fst Dashboard.kind_of without_row];
        split; cbn [Dashboard.videos Dashboard.images videos images].
      * intros v Hin. apply list_elem_of_filter in Hin as [Hne Hin].
        rewrite lookup_delete_ne by congruence. now apply Hv.
      * exact Hi.
      * exact Hv.
      * intros i Hin. apply list_elem_of_filter in Hin as [Hne Hin].
        rewrite lookup_delete_ne by congruence. now apply Hi.
    + destruct (Dashboard.type item); reflexivity.
    + split.
      * intros _. destruct (Dashboard.type item); repeat split.
      * intros Hne. now contradiction Hne.
  - rewrite Hres, Hdb, Hnok. cbn [negb fst snd body].
    split; [split; assumption|]. split; [reflexivity|].
    split; [reflexivity|]. split.
    + intros [= ].
    + intros _. repeat split. eauto.
Qed.

(** "u2" confirms the deletion of the video "v1" of "u1": the route
    answers 403 and the dashboard keeps the row. *)
Lemma dashboard_delete_example :
  let st :=
    {| Dashboard.videos := [Scenario.video_of_u1];
       Dashboard.images := [];
       Dashboard.itemToDelete :=
         Some {| Dashboard.id := lit "v1"; Dashboard.title := lit "demo";
                 Dashboard.type := Dashboard.video |};
       Dashboard.isDeleting := false |} in
  let fetch := λ t id,
    result (media_DELETE (Dashboard.kind_of t) Scenario.env_ok
              {| del_userId := Some (lit "u2"); del_id := id |} Scenario.library) in
  Dashboard.videos (Dashboard.handleDelete fetch st).1.1 = [Scenario.video_of_u1]
  ∧ (Dashboard.handleDelete fetch st).2 = [Dashboard.ServerSaid Forbidden]
  ∧ dashboard_shows_stored_rows (Dashboard.handleDelete fetch st).1.1
      Scenario.library.
Proof.
  cbv zeta.
  split; [vm_compute; reflexivity|]. split; [vm_compute; reflexivity|].
  set (st := {| Dashboard.videos := _ |}).
  assert (H0 : dashboard_shows_stored_rows st Scenario.library).
  { split; intros x Hx.
    - apply list_elem_of_singleton in Hx. subst x. vm_compute. reflexivity.
    - apply elem_of_nil in Hx. contradiction. }
  pose proof (dashboard_delete_follows_the_route Scenario.env_ok
                (Some (lit "u2")) Scenario.library st _ eq_refl H0)
    as (Hkeep & _ & _ & _ & Hfail).
  cbv zeta in Hkeep, Hfail.
  destruct Hfail as (Hdb & _); [vm_compute; discriminate|].
  cbn [Dashboard.kind_of Dashboard.type Dashboard.id] in Hkeep, Hdb.
  rewrite Hdb in Hkeep. exact Hkeep.
Defined.
